(** * Sparkify data-lake ETL (etl.py): a shallow embedding and its properties

    The program is a PySpark batch job.  A DataFrame is modelled as the list
    of its rows (row order is not observable in the engine; the lists fix
    one), a nullable column as an [option], the column expressions by SQL's
    three-valued logic, and the parquet destination as a finite map from
    paths to the dataset last written there. *)

From Stdlib Require Import ZArith String Ascii Decimal DecimalString DecimalZ DecimalPos.
From Stdlib Require Import Floats.SpecFloat.
From stdpp Require Import base decidable option list strings gmap.

Local Open Scope string_scope.
Local Open Scope list_scope.
Local Open Scope Z_scope.

(** ** SQL column expressions *)

Module Sql.

(** [a == b]: null when either side is null. *)
Definition eq {A} `{EqDecision A} (x y : option A) : option bool :=
  match x, y with
  | Some a, Some b => Some (bool_decide (a = b))
  | _, _ => None
  end.

(** [p & q] in three-valued logic. *)
Definition and (p q : option bool) : option bool :=
  match p, q with
  | Some false, _ | _, Some false => Some false
  | Some true, Some true => Some true
  | _, _ => None
  end.

(** A filter or join condition keeps a row only when it evaluates to true. *)
Definition holds (p : option bool) : bool :=
  match p with Some true => true | _ => false end.

(** [max] aggregate: null over an empty group. *)
Definition max (l : list Z) : option Z :=
  match l with
  | [] => None
  | x :: l' => Some (foldr Z.max x l')
  end.

(** [dropDuplicates()]: one row per class of identical rows. *)
Definition dropDuplicates {A} `{EqDecision A} (df : list A) : list A :=
  remove_dups df.

(** [l.join(r, mask, how='inner')] *)
Definition inner_join {A B} (mask : A → B → option bool)
    (l : list A) (r : list B) : list (A * B) :=
  a ← l; b ← r; if holds (mask a b) then [(a, b)] else [].

(** [l.join(r, mask, how='left')]: a left row without a partner is kept
    once, with nulls on the right. *)
Definition left_join {A B} (mask : A → B → option bool)
    (l : list A) (r : list B) : list (A * option B) :=
  a ← l;
  match filter (λ b, holds (mask a b)) r with
  | [] => [(a, None)]
  | ms => (λ b, (a, Some b)) <$> ms
  end.

(** [withColumn]: every row gets one more cell. *)
Definition withColumn {A C} (f : A → C) (df : list A) : list (A * C) :=
  (λ r, (r, f r)) <$> df.

(** A cell handed back by a scalar function: a long or a string. *)
Inductive value :=
  | LongV (z : Z)
  | StringV (s : string).

(** The implicit cast to bigint the engine inserts where a long is expected. *)
Definition cast_long (v : value) : option Z :=
  match v with
  | LongV z => Some z
  | StringV s => Z.of_int <$> NilZero.int_of_string s
  end.

(** 64-bit two's complement. *)
Definition wrap64 (z : Z) : Z := (z + 2 ^ 63) mod 2 ^ 64 - 2 ^ 63.

(** The key of row [i] of partition [p]: the partition index in the upper
    31 bits, the position of the row inside its partition in the lower 33. *)
Definition row_id (p i : nat) : Z :=
  wrap64 (Z.shiftl (Z.of_nat p) 33 + Z.of_nat i).

(** [monotonically_increasing_id()] *)
Definition monotonically_increasing_id {A} (parts : list (list A))
    : list (list (A * Z)) :=
  imap (λ p part, imap (λ i r, (r, row_id p i)) part) parts.

(** The (partition, position) pairs of the rows of a layout whose first
    partition has index [p0], in row order. *)
Fixpoint positions {A} (p0 : nat) (parts : list (list A)) : list (nat * nat) :=
  match parts with
  | [] => []
  | part :: parts' =>
      ((λ i, (p0, i)) <$> seq 0 (length part)) ++ positions (S p0) parts'
  end.

End Sql.

(** ** Python builtins used by the scalar function *)

Module Py.

(** Python's [x / d] on integers is the exact quotient rounded to the
    nearest double, ties to even, and [int] drops the fraction of a double,
    toward zero.  The argument is a long and the divisor 1000, so the
    quotient is a normal double: no overflow, no subnormal. *)

(** The [k] with [2^k <= a/d < 2^(k+1)], for positive [a] and [d]. *)
Definition floor_log2_ratio (a d : Z) : Z :=
  let k := Z.log2 a - Z.log2 d in
  if (if 0 <=? k then d * 2 ^ k <=? a else d <=? a * 2 ^ (- k)) then k
  else k - 1.

(** The integer nearest to [num/den], ties to even. *)
Definition round_half_even (num den : Z) : Z :=
  let q := num `div` den in
  match 2 * (num `mod` den) ?= den with
  | Lt => q
  | Gt => q + 1
  | Eq => if Z.even q then q else q + 1
  end.

(** [a / d] for [a >= 0 < d]: the double [m * 2^e] with a significand of 53
    bits. *)
Definition truediv (a d : Z) : Z * Z :=
  let e := floor_log2_ratio a d - 52 in
  (if 0 <=? e then round_half_even a (d * 2 ^ e)
   else round_half_even (a * 2 ^ (- e)) d,
   e).

(** [int(f)] of a double [f >= 0]. *)
Definition int (f : Z * Z) : Z :=
  if 0 <=? f.2 then f.1 * 2 ^ f.2 else f.1 `div` 2 ^ (- f.2).

(** [int(x / d)]: rounding and truncation are symmetric around zero. *)
Definition int_truediv (x d : Z) : Z := Z.sgn x * int (truediv (Z.abs x) d).

(** The same by the IEEE 754 division of the standard library, to compare
    with. *)
Definition binary64 (z : Z) : spec_float :=
  match z with
  | Z0 => S754_zero false
  | Zpos p => S754_finite false p 0
  | Zneg p => S754_finite true p 0
  end.

Definition trunc (f : spec_float) : Z :=
  match f with
  | S754_finite s m e =>
      (if s then -1 else 1) *
      (if 0 <=? e then Zpos m * 2 ^ e else Zpos m `div` 2 ^ (- e))
  | _ => 0
  end.

Definition ieee_int_truediv (x d : Z) : Z :=
  trunc (SFdiv 53 1024 (binary64 x) (binary64 d)).

(** [str(n)]: decimal digits, a leading minus sign for negatives. *)
Definition str (n : Z) : string := NilZero.string_of_int (Z.to_int n).

End Py.

(** ** Raw records *)

Module Song.
Record t {double : Type} := mk {
  song_id : option string;
  title : option string;
  artist_id : option string;
  artist_name : option string;
  artist_location : option string;
  artist_latitude : option double;
  artist_longitude : option double;
  year : option Z;
  duration : option double
}.
Global Arguments t : clear implicits.
Global Arguments mk {double}.
End Song.

(** [ts] is the one column the job cannot take null: [get_timestamp]
    divides it. *)
Module Log.
Record t := mk {
  userId : option string;
  firstName : option string;
  lastName : option string;
  gender : option string;
  level : option string;
  ts : Z;
  page : option string;
  song : option string;
  artist : option string;
  sessionId : option Z;
  location : option string;
  userAgent : option string
}.
(** The same event at another instant. *)
Definition with_ts (t' : Z) (e : t) : t :=
  mk (userId e) (firstName e) (lastName e) (gender e) (level e) t' (page e)
     (song e) (artist e) (sessionId e) (location e) (userAgent e).
End Log.

(** ** Output rows *)

Module SongDim.
Record t {double : Type} := mk {
  song_id : option string;
  title : option string;
  artist_id : option string;
  year : option Z;
  duration : option double
}.
Global Arguments t : clear implicits.
Global Arguments mk {double}.
End SongDim.

Module ArtistDim.
Record t {double : Type} := mk {
  artist_id : option string;
  name : option string;
  location : option string;
  latitude : option double;
  longitude : option double
}.
Global Arguments t : clear implicits.
Global Arguments mk {double}.
End ArtistDim.

Module UserDim.
Record t := mk {
  user_id : option string;
  first_name : option string;
  last_name : option string;
  gender : option string;
  level : option string
}.
End UserDim.

Module TimeDim.
Record t := mk {
  start_time : option string;
  hour : option Z;
  day : option Z;
  week : option Z;
  month : option Z;
  year : option Z;
  weekday : option Z
}.
End TimeDim.

Module Fact.
Record t := mk {
  songplay_id : Z;
  start_time : option string;
  user_id : option string;
  level : option string;
  song_id : option string;
  artist_id : option string;
  session_id : option Z;
  location : option string;
  user_agent : option string;
  year : option Z;
  month : option Z
}.
(** Every column of a fact row but its surrogate key. *)
Definition payload (r : t) :=
  (start_time r, user_id r, level r, song_id r, artist_id r, session_id r,
   location r, user_agent r, year r, month r).
End Fact.

Global Instance SongDim_eq_dec {double} `{EqDecision double} :
  EqDecision (SongDim.t double).
Proof. solve_decision. Defined.

Global Instance ArtistDim_eq_dec {double} `{EqDecision double} :
  EqDecision (ArtistDim.t double).
Proof. solve_decision. Defined.

Global Instance UserDim_eq_dec : EqDecision UserDim.t.
Proof. solve_decision. Defined.

Global Instance Log_eq_dec : EqDecision Log.t.
Proof. solve_decision. Defined.

(** ** The engine

    What the job takes from the engine without fixing it: the rendering of
    epoch seconds as a ['yyyy-MM-dd HH:mm:ss'] text in the session time zone,
    the calendar fields read back from such a text (null when it does not
    parse), and how the rows of a dataset are spread over partitions. *)

Class Engine := {
  from_unixtime : Z → string;
  hour : string → option Z;
  dayofmonth : string → option Z;
  weekofyear : string → option Z;
  month : string → option Z;
  year : string → option Z;
  dayofweek : string → option Z;
  partitions : ∀ A : Type, list A → list (list A);
  partitions_concat : ∀ (A : Type) (l : list A), concat (partitions A l) = l
}.

(** ** The job *)

Section etl.
Context {double : Type} {double_eq : EqDecision double} {engine : Engine}.

(** *** Parquet destinations *)

Inductive Table :=
  | SongsT (rows : list (SongDim.t double))
  | ArtistsT (rows : list (ArtistDim.t double))
  | UsersT (rows : list UserDim.t)
  | TimeT (rows : list TimeDim.t)
  | SongplaysT (rows : list Fact.t).

(** A dataset as stored: the columns its directory layout is split by, and
    its rows. *)
Record Parquet := {
  partition_cols : list string;
  rows : Table
}.

(** [df.write] *)
Definition write (t : Table) : Parquet :=
  {| partition_cols := []; rows := t |}.

(** [.partitionBy(cols)] *)
Definition partitionBy (cols : list string) (w : Parquet) : Parquet :=
  {| partition_cols := cols; rows := rows w |}.

(** [.parquet(path, 'overwrite')]: whatever was stored at [path] is
    replaced.  The store holds datasets by the location they were written
    to; the files beneath a location are its dataset, not keys of their
    own, so nothing is said here of a key lying inside another. *)
Definition parquet_overwrite (w : Parquet) (path : string)
    (st : gmap string Parquet) : gmap string Parquet :=
  <[path := w]> st.

(** *** process_song_data *)

Definition songs_table (df : list (Song.t double)) : list (SongDim.t double) :=
  Sql.dropDuplicates
    ((λ r, SongDim.mk (Song.song_id r) (Song.title r) (Song.artist_id r)
             (Song.year r) (Song.duration r)) <$> df).

Definition artists_table (df : list (Song.t double))
    : list (ArtistDim.t double) :=
  (λ '(artist_id, artist_name, artist_location, artist_latitude,
       artist_longitude),
     ArtistDim.mk artist_id artist_name artist_location artist_latitude
       artist_longitude)
  <$> Sql.dropDuplicates
        ((λ r, (Song.artist_id r, Song.artist_name r, Song.artist_location r,
                Song.artist_latitude r, Song.artist_longitude r)) <$> df).

Definition process_song_data (df : list (Song.t double)) (output_data : string)
    (st : gmap string Parquet) : gmap string Parquet :=
  let st :=
    parquet_overwrite
      (partitionBy ["year"; "artist_id"] (write (SongsT (songs_table df))))
      (output_data +:+ "dim_songs/") st in
  parquet_overwrite (write (ArtistsT (artists_table df)))
    (output_data +:+ "dim_artists/") st.

(** *** process_log_data *)

(** [df.filter(df.page == 'NextSong')] *)
Definition nextsong (df : list Log.t) : list Log.t :=
  filter (λ e, Sql.holds (Sql.eq (Log.page e) (Some "NextSong"))) df.

(** [df.groupBy('userId').max('ts')], renamed to [(user_id, max_ts)]: one
    row per distinct key, null being a key of its own. *)
Definition max_ts_user_df (df : list Log.t) : list (option string * option Z) :=
  (λ k, (k, Sql.max (Log.ts <$> filter (λ e, Log.userId e = k) df)))
  <$> remove_dups (Log.userId <$> df).

Definition mask (e : Log.t) (g : option string * option Z) : option bool :=
  Sql.and (Sql.eq (Log.userId e) g.1) (Sql.eq (Some (Log.ts e)) g.2).

(** [.select('userId', 'firstName', 'lastName', 'gender', 'level')] and
    the renamings, on a row of the join. *)
Definition user_row (j : Log.t * (option string * option Z)) : UserDim.t :=
  UserDim.mk (Log.userId j.1) (Log.firstName j.1) (Log.lastName j.1)
    (Log.gender j.1) (Log.level j.1).

Definition users_table (df : list Log.t) : list UserDim.t :=
  user_row <$> Sql.inner_join mask df (max_ts_user_df df).

(** [udf(lambda x: str(int(x/1000)))]; a udf without a declared type yields a
    string column. *)
Definition get_timestamp (x : Z) : Sql.value :=
  Sql.StringV (Py.str (Py.int_truediv x 1000)).

(** [df.withColumn('ts_ms', get_timestamp(df.ts))] *)
Definition with_ts_ms (df : list Log.t) : list (Log.t * Sql.value) :=
  Sql.withColumn (λ e, get_timestamp (Log.ts e)) df.

(** [from_unixtime(df.ts_ms)] on the string column. *)
Definition datetime_of (ts_ms : Sql.value) : option string :=
  from_unixtime <$> Sql.cast_long ts_ms.

Definition time_table (df : list (Log.t * Sql.value)) : list TimeDim.t :=
  (λ r,
     let datetime := datetime_of r.2 in
     TimeDim.mk datetime (datetime ≫= hour) (datetime ≫= dayofmonth)
       (datetime ≫= weekofyear) (datetime ≫= month) (datetime ≫= year)
       (datetime ≫= dayofweek))
  <$> df.

Definition song_match (r : Log.t * Sql.value) (s : Song.t double)
    : option bool :=
  Sql.and (Sql.eq (Log.song r.1) (Song.title s))
          (Sql.eq (Log.artist r.1) (Song.artist_name s)).

(** The row of the fact table built from one row of the join, its
    [datetime] cell and its [songplay_id] cell. *)
Definition songplay_row
    (j : (Log.t * Sql.value) * option (Song.t double) * option string * Z)
    : Fact.t :=
  let '(r, s, datetime, songplay_id) := j in
  let start_time := datetime in
  Fact.mk songplay_id start_time (Log.userId r.1) (Log.level r.1)
    (s ≫= Song.song_id) (s ≫= Song.artist_id) (Log.sessionId r.1)
    (Log.location r.1) (Log.userAgent r.1)
    (start_time ≫= year) (start_time ≫= month).

(** The left join with its [datetime] column, before the surrogate key is
    attached. *)
Definition dated_plays (df : list (Log.t * Sql.value))
    (song_df : list (Song.t double))
    : list ((Log.t * Sql.value) * option (Song.t double) * option string) :=
  let joined := Sql.left_join song_match df song_df in
  Sql.withColumn (λ j, datetime_of j.1.2) joined.

Definition songplays_table (df : list (Log.t * Sql.value))
    (song_df : list (Song.t double)) : list Fact.t :=
  let numbered :=
    concat (Sql.monotonically_increasing_id
              (partitions _ (dated_plays df song_df))) in
  songplay_row <$> numbered.

Definition process_log_data (log_df : list Log.t)
    (song_df : list (Song.t double)) (output_data : string)
    (st : gmap string Parquet) : gmap string Parquet :=
  let df := nextsong log_df in
  let st :=
    parquet_overwrite (write (UsersT (users_table df)))
      (output_data +:+ "dim_users/") st in
  let df := with_ts_ms df in
  let st :=
    parquet_overwrite (write (TimeT (time_table df)))
      (output_data +:+ "dim_time/") st in
  parquet_overwrite
    (partitionBy ["year"; "month"]
       (write (SongplaysT (songplays_table df song_df))))
    (output_data +:+ "fact_songplays/") st.

(** *** main *)

Definition output_data : string := "s3a://udacity-dend/output/".

Definition main (song_df : list (Song.t double)) (log_df : list Log.t)
    (st : gmap string Parquet) : gmap string Parquet :=
  process_log_data log_df song_df output_data
    (process_song_data song_df output_data st).

End etl.

(** ** An engine: UTC session time zone, two partitions

    The proleptic Gregorian calendar by the era/day-of-era computation, the
    ['yyyy-MM-dd HH:mm:ss'] rendering, [dayofweek] counting from Sunday = 1,
    [weekofyear] the ISO-8601 week.  The rows of a dataset go to two
    partitions, the first [k] rows and the rest. *)

Module Utc.

Definition civil_from_days (z : Z) : Z * Z * Z :=
  let z := z + 719468 in
  let era := z `div` 146097 in
  let doe := z - era * 146097 in
  let yoe :=
    (doe - doe `div` 1460 + doe `div` 36524 - doe `div` 146096) `div` 365 in
  let doy := doe - (365 * yoe + yoe `div` 4 - yoe `div` 100) in
  let mp := (5 * doy + 2) `div` 153 in
  let d := doy - (153 * mp + 2) `div` 5 + 1 in
  let m := if bool_decide (mp < 10) then mp + 3 else mp - 9 in
  let y := yoe + era * 400 in
  (if bool_decide (m ≤ 2) then y + 1 else y, m, d).

Definition days_from_civil (y m d : Z) : Z :=
  let y := if bool_decide (m ≤ 2) then y - 1 else y in
  let era := y `div` 400 in
  let yoe := y - era * 400 in
  let mp := if bool_decide (2 < m) then m - 3 else m + 9 in
  let doy := (153 * mp + 2) `div` 5 + d - 1 in
  let doe := yoe * 365 + yoe `div` 4 - yoe `div` 100 + doy in
  era * 146097 + doe - 719468.

Definition pad (width : nat) (n : Z) : string :=
  let s := Py.str n in
  String.concat "" (replicate (width - String.length s) "0") +:+ s.

Definition render (secs : Z) : string :=
  let '(y, m, d) := civil_from_days (secs `div` 86400) in
  let t := secs `mod` 86400 in
  pad 4 y +:+ "-" +:+ pad 2 m +:+ "-" +:+ pad 2 d +:+ " " +:+
  pad 2 (t `div` 3600) +:+ ":" +:+ pad 2 ((t `mod` 3600) `div` 60) +:+ ":" +:+
  pad 2 (t `mod` 60).

Definition digits (start len : nat) (s : string) : option Z :=
  Z.of_uint <$> NilZero.uint_of_string (substring start len s).

(** Year, month, day, hour, minute and second spelled by a text of the
    rendered shape. *)
Definition parse (s : string) : option (Z * Z * Z * Z * Z * Z) :=
  if bool_decide (String.length s = 19%nat) then
    y ← digits 0 4 s; m ← digits 5 2 s; d ← digits 8 2 s;
    hh ← digits 11 2 s; mm ← digits 14 2 s; ss ← digits 17 2 s;
    Some (y, m, d, hh, mm, ss)
  else None.

Definition days_of (s : string) : option Z :=
  (λ '(y, m, d, _, _, _), days_from_civil y m d) <$> parse s.

Definition iso_week (s : string) : option Z :=
  (λ days,
     let wd := (days + 3) `mod` 7 in
     let thursday := days - wd + 3 in
     let '(y, _, _) := civil_from_days thursday in
     (thursday - days_from_civil y 1 1) `div` 7 + 1) <$> days_of s.

Definition day_from_sunday (s : string) : option Z :=
  (λ days, (days + 4) `mod` 7 + 1) <$> days_of s.

Definition engine (k : nat) : Engine := {|
  from_unixtime := render;
  hour := λ s, (λ '(_, _, _, hh, _, _), hh) <$> parse s;
  dayofmonth := λ s, (λ '(_, _, d, _, _, _), d) <$> parse s;
  weekofyear := iso_week;
  month := λ s, (λ '(_, m, _, _, _, _), m) <$> parse s;
  year := λ s, (λ '(y, _, _, _, _, _), y) <$> parse s;
  dayofweek := day_from_sunday;
  partitions := λ A l, [take k l; drop k l];
  partitions_concat := λ A l,
    eq_trans (f_equal (app (take k l)) (app_nil_r (drop k l))) (take_drop k l)
|}.

End Utc.

(** ** Vocabulary of the properties *)

(** The number of rows a user has in a users table. *)
Definition rows_of_user (u : string) (t : list UserDim.t) : nat :=
  length (filter (λ r, UserDim.user_id r = Some u) t).

(** A users table with exactly one row for every user of the events. *)
Definition one_row_per_user (df : list Log.t) (t : list UserDim.t) : Prop :=
  ∀ u, Some u ∈ Log.userId <$> df → rows_of_user u t = 1%nat.

(** The partition layout stays inside the bit fields of the surrogate key:
    at most 2^31 partitions, at most 2^33 rows in each. *)
Definition id_capacity {A} (parts : list (list A)) : Prop :=
  Z.of_nat (length parts) ≤ 2 ^ 31 ∧
  Forall (λ part, Z.of_nat (length part) ≤ 2 ^ 33) parts.

(** The song records an event matches: same title and same artist name,
    none of them null. *)
Definition matches {double} (e : Log.t) (s : Song.t double) : Prop :=
  ∃ t a, Log.song e = Some t ∧ Song.title s = Some t ∧
         Log.artist e = Some a ∧ Song.artist_name s = Some a.

Global Instance matches_dec {double} (e : Log.t) (s : Song.t double) :
  Decision (matches e s).
Proof.
  unfold matches.
  destruct (Log.song e) as [t|], (Song.title s) as [t'|],
    (Log.artist e) as [a|], (Song.artist_name s) as [a'|];
    try (right; intros (? & ? & ? & ? & ? & ?); congruence).
  destruct (decide (t = t')) as [->|]; [|right; intros (? & ? & ? & ? & ? & ?); congruence].
  destruct (decide (a = a')) as [->|]; [|right; intros (? & ? & ? & ? & ? & ?); congruence].
  left; eauto 10.
Defined.

(** The columns a row of the join gives to the fact table, whatever
    surrogate key it receives. *)
Definition payload_of {double} `{Engine}
    (j : (Log.t * Sql.value) * option (Song.t double) * option string) :=
  Fact.payload (songplay_row (j, 0)).

(** Two events that differ at most inside the second of their [ts]. *)
Definition same_second (e e' : Log.t) : Prop :=
  e' = Log.with_ts (Log.ts e') e ∧ Log.ts e ÷ 1000 = Log.ts e' ÷ 1000.



(** The instants on which the double division of [get_timestamp] is exact:
    less than 2^44 seconds from the epoch, which is more than a timestamp of
    the engine can hold. *)
Definition exact_ms (ts : Z) : Prop := Z.abs ts < 1000 * 2 ^ 44.

Global Instance exact_ms_dec (ts : Z) : Decision (exact_ms ts).
Proof. unfold exact_ms. apply _. Defined.

(** A location as a directory, and whether one lies inside the other (or
    is the same directory). *)
Definition dir_of (path : string) : string :=
  match String.get (String.length path - 1) path with
  | Some "/"%char => path
  | _ => path +:+ "/"
  end.

Definition within (dir path : string) : bool :=
  String.prefix (dir_of dir) (dir_of path).

(** Two locations neither of which lies inside the other. *)
Definition apart (p q : string) : Prop :=
  within p q = false ∧ within q p = false.

Global Instance apart_dec (p q : string) : Decision (apart p q).
Proof. unfold apart. apply _. Defined.

(** A scalar function that hands back a long. *)
Definition returns_long (f : Z → Sql.value) (x : Z) : Prop :=
  ∃ z, f x = Sql.LongV z.

(** ** Sample data *)

Module Sample.

Definition play (user first last level : string) (ts : Z)
    (song artist : string) : Log.t :=
  Log.mk (Some user) (Some first) (Some last) (Some "F") (Some level) ts
    (Some "NextSong") (Some song) (Some artist) (Some 583)
    (Some "Lansing-East Lansing, MI") (Some "Mozilla/5.0").

Definition visit (page user : string) (ts : Z) : Log.t :=
  Log.mk (Some user) (Some "Lily") (Some "Koch") (Some "F") (Some "free") ts
    (Some page) None None (Some 583) (Some "Lansing-East Lansing, MI")
    (Some "Mozilla/5.0").

Definition record (song_id title artist_id artist_name : string) (year : Z)
    : Song.t Z :=
  Song.mk (Some song_id) (Some title) (Some artist_id) (Some artist_name)
    None None None (Some year) (Some 218).

(** User u1 moves from the free to the paid tier. *)
Definition u1_free : Log.t := play "u1" "Lily" "Koch" "free" 100 "Setanta matins" "Elena".
Definition u1_paid : Log.t := play "u1" "Lily" "Koch" "paid" 200 "Intro" "Gob".
Definition upgrade : list Log.t := [u1_free; u1_paid].

(** Two plays of u1 at one instant, on different tiers. *)
Definition tie : list Log.t :=
  [play "u1" "Lily" "Koch" "free" 200 "Setanta matins" "Elena"; u1_paid].

(** Three events, one of them a login. *)
Definition session : list Log.t :=
  [u1_free; visit "Login" "u1" 150; u1_paid].

Definition setanta : Song.t Z :=
  record "SOZCTXZ12AB0182364" "Setanta matins" "AR5KOSW1187FB35FF4" "Elena" 0.
Definition intro : Song.t Z :=
  record "SOINTRO12AB0182364" "Intro" "ARGOB001187FB35FF4" "Gob" 1998.
(** The same title by the same artist under a second song id. *)
Definition setanta_reissue : Song.t Z :=
  record "SOZCTXZ12AB0189999" "Setanta matins" "AR5KOSW1187FB35FF4" "Elena" 2004.

(** Five plays, two of which have a song record. *)
Definition five_plays : list Log.t :=
  [u1_free; u1_paid;
   play "u2" "Ava" "Robinson" "free" 1542242205796 "Unknown" "Nobody";
   play "u2" "Ava" "Robinson" "free" 1542242481796 "setanta matins" "Elena";
   play "u3" "Kate" "Harrell" "paid" 1542242741796 "Intro" "Gob "].

Definition catalogue : list (Song.t Z) := [setanta; intro].

End Sample.

(** ** Column expressions, joins and aggregates *)

Section sql_facts.
Context {A B : Type}.

Lemma holds_eq `{EqDecision A} (x y : option A) :
  Sql.holds (Sql.eq x y) ↔ ∃ a, x = Some a ∧ y = Some a.
Proof.
  destruct x as [a|], y as [b|]; simpl;
    [|split; [done | intros (? & ? & ?); congruence]..].
  case_bool_decide as Hab; simpl; split; try done.
  - intros _. exists a. by rewrite Hab.
  - intros (? & ? & ?). congruence.
Qed.

Lemma holds_and (p q : option bool) :
  Sql.holds (Sql.and p q) ↔ Sql.holds p ∧ Sql.holds q.
Proof. destruct p as [[]|], q as [[]|]; simpl; intuition. Qed.

Lemma foldr_max_spec (x : Z) (l : list Z) :
  foldr Z.max x l ∈ x :: l ∧ ∀ y, y ∈ x :: l → y ≤ foldr Z.max x l.
Proof.
  induction l as [|z l [IHin IHle]]; simpl.
  - split; [left|]. intros y Hy. apply list_elem_of_singleton in Hy. lia.
  - split.
    + destruct (Z.max_spec z (foldr Z.max x l)) as [[_ ->]|[_ ->]].
      * apply elem_of_cons in IHin as [->|?]; [left | do 2 right; done].
      * right; left.
    + intros y Hy. apply elem_of_cons in Hy as [->|Hy].
      * specialize (IHle x ltac:(left)). lia.
      * apply elem_of_cons in Hy as [->|Hy]; [lia|].
        specialize (IHle y ltac:(by right)). lia.
Qed.

Lemma max_spec (l : list Z) (m : Z) :
  Sql.max l = Some m ↔ m ∈ l ∧ ∀ y, y ∈ l → y ≤ m.
Proof.
  destruct l as [|x l]; simpl.
  - split; [done|]. intros [Hin _]. by apply elem_of_nil in Hin.
  - destruct (foldr_max_spec x l) as [Hin Hle]. split.
    + by intros [= <-].
    + intros [Hm Hub]. f_equal.
      specialize (Hle m Hm). specialize (Hub _ Hin). lia.
Qed.

Lemma max_is_Some (l : list Z) (x : Z) : x ∈ l → is_Some (Sql.max l).
Proof. destruct l; [by intros ?%elem_of_nil | by eexists]. Qed.

Lemma bind_one (f : A → list B) (a : A) : [a] ≫= f = f a.
Proof. rewrite bind_cons. apply app_nil_r. Qed.

Lemma inner_join_filter (mask : A → B → option bool) l r :
  Sql.inner_join mask l r =
  a ← l; (λ b, (a, b)) <$> filter (λ b, Sql.holds (mask a b)) r.
Proof.
  unfold Sql.inner_join. apply list_bind_ext; [|done]. intros a.
  induction r as [|b r IH]; [done|].
  rewrite bind_cons, filter_cons, IH.
  by destruct (Sql.holds (mask a b)).
Qed.

Lemma length_left_join (mask : A → B → option bool) l r :
  length (Sql.left_join mask l r) =
  sum_list_with
    (λ a, Nat.max 1 (length (filter (λ b, Sql.holds (mask a b)) r))) l.
Proof.
  unfold Sql.left_join.
  induction l as [|a l IH]; [done|].
  rewrite bind_cons, length_app, IH. cbn [sum_list_with]. f_equal.
  destruct (filter _ r) as [|b ms]; [done|].
  rewrite length_fmap. cbn [length]. lia.
Qed.

Lemma filter_none (P : B → Prop) `{!∀ b, Decision (P b)} (r : list B) :
  Forall (λ b, ¬ P b) r → filter P r = [].
Proof.
  induction 1 as [|b r Hb _ IH]; [done|].
  by rewrite filter_cons_False.
Qed.

Lemma left_join_unmatched (mask : A → B → option bool) l r a :
  a ∈ l → Forall (λ b, ¬ Sql.holds (mask a b)) r →
  (a, None) ∈ Sql.left_join mask l r.
Proof.
  intros Ha Hno. unfold Sql.left_join.
  apply list_elem_of_bind. exists a. split; [|done].
  rewrite filter_none by done. left.
Qed.

Lemma elem_of_left_join (mask : A → B → option bool) l r a ob :
  (a, ob) ∈ Sql.left_join mask l r →
  a ∈ l ∧
  match ob with
  | Some b => b ∈ r ∧ Sql.holds (mask a b)
  | None => Forall (λ b, ¬ Sql.holds (mask a b)) r
  end.
Proof.
  unfold Sql.left_join. intros (a' & Hin & Ha')%list_elem_of_bind.
  destruct (filter (λ b, Sql.holds (mask a' b)) r) as [|b ms] eqn:Hf.
  - apply list_elem_of_singleton in Hin as [= -> ->]. split; [done|].
    apply Forall_forall. intros b Hb Hm.
    assert (b ∈ filter (λ b, Sql.holds (mask a' b)) r) as Hbf
      by by apply list_elem_of_filter.
    rewrite Hf in Hbf. by apply elem_of_nil in Hbf.
  - apply list_elem_of_fmap in Hin as (b' & [= -> ->] & Hb').
    split; [done|]. rewrite <- Hf in Hb'.
    apply list_elem_of_filter in Hb' as [? ?]. by split.
Qed.

Lemma numbered_fst (parts : list (list A)) :
  (concat (Sql.monotonically_increasing_id parts)).*1 = concat parts.
Proof.
  unfold Sql.monotonically_increasing_id.
  assert (∀ F : nat → list A → list (A * Z),
    (∀ p part, (F p part).*1 = part) →
    (concat (imap F parts)).*1 = concat parts) as Hgen.
  { induction parts as [|part parts IH]; intros F HF; [done|].
    rewrite imap_cons. simpl. rewrite fmap_app, HF. f_equal.
    apply IH. intros p part'. apply HF. }
  apply Hgen. intros p part.
  rewrite fmap_imap.
  rewrite (imap_ext _ (const id)); [|done].
  by rewrite imap_const, list_fmap_id.
Qed.

End sql_facts.

(** ** Surrogate keys *)

Section surrogate_keys.
Context {A : Type}.

Lemma row_id_inj (p i p' i' : nat) :
  Z.of_nat p < 2 ^ 31 → Z.of_nat i < 2 ^ 33 →
  Z.of_nat p' < 2 ^ 31 → Z.of_nat i' < 2 ^ 33 →
  Sql.row_id p i = Sql.row_id p' i' → p = p' ∧ i = i'.
Proof.
  unfold Sql.row_id, Sql.wrap64. intros Hp Hi Hp' Hi'.
  rewrite !Z.shiftl_mul_pow2 by lia.
  change (2 ^ 33) with 8589934592 in *. change (2 ^ 31) with 2147483648 in *.
  change (2 ^ 63) with 9223372036854775808.
  change (2 ^ 64) with 18446744073709551616.
  intros Heq. Z.div_mod_to_equations. lia.
Qed.

Lemma part_ids (p : nat) (part : list A) (i0 : nat) :
  (imap (λ i r, (r, Sql.row_id p (i0 + i))) part).*2 =
  Sql.row_id p <$> seq i0 (length part).
Proof.
  revert i0. induction part as [|r part IH]; intros i0; [done|].
  rewrite imap_cons. cbn [fmap list_fmap length seq snd].
  rewrite Nat.add_0_r. f_equal.
  rewrite <- IH. f_equal. apply imap_ext. intros i x _. simpl.
  by rewrite Nat.add_succ_r.
Qed.

Lemma ids_positions (parts : list (list A)) (p0 : nat) :
  (concat (imap (λ p part, imap (λ i r, (r, Sql.row_id (p0 + p) i)) part)
             parts)).*2 =
  (λ x, Sql.row_id x.1 x.2) <$> Sql.positions p0 parts.
Proof.
  revert p0. induction parts as [|part parts IH]; intros p0; [done|].
  rewrite imap_cons. cbn [concat Sql.positions].
  rewrite !fmap_app. f_equal.
  - rewrite Nat.add_0_r, <- list_fmap_compose.
    apply (part_ids p0 part 0).
  - rewrite <- IH. do 2 f_equal. apply imap_ext. intros p x _. simpl.
    by rewrite Nat.add_succ_r.
Qed.

Lemma elem_of_positions (parts : list (list A)) (p0 p i : nat) :
  (p, i) ∈ Sql.positions p0 parts →
  (p0 ≤ p < p0 + length parts)%nat ∧
  ∃ part, part ∈ parts ∧ (i < length part)%nat.
Proof.
  revert p0. induction parts as [|part parts IH]; intros p0; simpl.
  - by intros ?%elem_of_nil.
  - intros [Hin|Hin]%elem_of_app.
    + apply list_elem_of_fmap in Hin as (j & [= -> ->] & Hj).
      apply elem_of_seq in Hj. split; [lia|].
      exists part. split; [left | lia].
    + apply IH in Hin as (Hp & part' & Hpart' & Hi). split; [lia|].
      exists part'. split; [by right | done].
Qed.

Lemma NoDup_positions (parts : list (list A)) (p0 : nat) :
  NoDup (Sql.positions p0 parts).
Proof.
  revert p0. induction parts as [|part parts IH]; intros p0; simpl.
  - constructor.
  - apply NoDup_app. split; [|split; [|apply IH]].
    + apply NoDup_fmap_2; [|apply NoDup_seq]. by intros i j [=].
    + intros [p i] (j & [= -> ->] & _)%list_elem_of_fmap Hin.
      apply elem_of_positions in Hin. lia.
Qed.

Lemma NoDup_ids (parts : list (list A)) :
  id_capacity parts →
  NoDup (concat (Sql.monotonically_increasing_id parts)).*2.
Proof.
  intros [Hparts Hrows]. unfold Sql.monotonically_increasing_id.
  pose proof (ids_positions parts 0) as Hids. cbn [Nat.add] in Hids.
  rewrite Hids. clear Hids.
  apply NoDup_fmap_2_strong; [|apply NoDup_positions].
  intros [p i] [p' i'] Hin Hin' Heq. simpl in Heq.
  apply elem_of_positions in Hin as (Hp & part & Hpart & Hi).
  apply elem_of_positions in Hin' as (Hp' & part' & Hpart' & Hi').
  rewrite Forall_forall in Hrows.
  pose proof (Hrows _ Hpart). pose proof (Hrows _ Hpart').
  apply row_id_inj in Heq as [-> ->]; [done|lia..].
Qed.

End surrogate_keys.

(** ** The time stamp conversion *)

Lemma cast_long_str (z : Z) : Sql.cast_long (Sql.StringV (Py.str z)) = Some z.
Proof.
  unfold Sql.cast_long, Py.str.
  rewrite NilZero.isi.
  - simpl. by rewrite DecimalZ.of_to.
  - destruct z; simpl; [done| |done].
    intros [= E]. by apply Unsigned.to_uint_nonnil in E.
  - destruct z; simpl; [done|done|].
    intros [= E]. by apply Unsigned.to_uint_nonnil in E.
Qed.

Lemma str_inj : Inj (=) (=) Py.str.
Proof.
  intros x y Hxy.
  assert (Sql.cast_long (Sql.StringV (Py.str x)) =
          Sql.cast_long (Sql.StringV (Py.str y))) as E by by rewrite Hxy.
  rewrite !cast_long_str in E. by injection E.
Qed.

(** The arithmetic model of [int(x / 1000)] and the IEEE 754 division of
    the standard library give the same seconds: around zero, at the powers
    of two where the spacing of the doubles changes, and at the ends of the
    range of a long. *)
Example int_truediv_ieee :
  Forall (λ x, Py.int_truediv x 1000 = Py.ieee_int_truediv x 1000)
    [0; 1; -1; 499; 500; 999; 1000; 1001; 1500; 2500; -999; -1000; -1001;
     1542242205796; -1542242205796; 2 ^ 53 - 1; 2 ^ 53; 2 ^ 53 + 1;
     9007199254740993; 17592186044415999; 17592186044416000;
     17592186044416499; 17592186044416500; 17592186044416999;
     -17592186044416999; 17592186044417500; 35184372088832999;
     70368744177664999; 123456789012345678; 2 ^ 63 - 1; - 2 ^ 63].
Proof. apply (bool_decide_unpack _). vm_compute. exact I. Qed.

Lemma round_half_even_bounds (num den : Z) :
  0 < den →
  num `div` den ≤ Py.round_half_even num den ∧
  2 * den * Py.round_half_even num den ≤ 2 * num + den.
Proof.
  intros Hd. unfold Py.round_half_even.
  pose proof (Z.div_mod num den ltac:(lia)) as Hdm.
  pose proof (Z.mod_pos_bound num den Hd) as Hm.
  destruct (Z.compare_spec (2 * (num `mod` den)) den) as [He|Hl|Hg].
  - destruct (Z.even _); split; nia.
  - split; nia.
  - split; nia.
Qed.

(** Below 2^44 seconds the quotient has at most 44 bits before the point. *)
Lemma floor_log2_ratio_le (a : Z) :
  0 ≤ a < 1000 * 2 ^ 44 → Py.floor_log2_ratio a 1000 ≤ 43.
Proof.
  intros Ha. unfold Py.floor_log2_ratio.
  change (Z.log2 1000) with 9.
  assert (Z.log2 a ≤ 53) as Hl.
  { destruct (decide (a = 0)) as [->|]; [done|].
    apply Z.lt_succ_r, Z.log2_lt_pow2; lia. }
  destruct (0 <=? Z.log2 a - 9) eqn:Hk.
  - destruct (1000 * 2 ^ (Z.log2 a - 9) <=? a) eqn:Ht; [|lia].
    apply Z.leb_le in Ht, Hk.
    destruct (decide (Z.log2 a - 9 ≤ 43)); [done|].
    assert (2 ^ 44 ≤ 2 ^ (Z.log2 a - 9)) by (apply Z.pow_le_mono_r; lia).
    lia.
  - apply Z.leb_gt in Hk. destruct (_ <=? _); lia.
Qed.

(** In that range the double is less than 1/1000 away from the quotient and
    cannot reach the next integer: [int(x / 1000)] is the truncated
    quotient. *)
Lemma int_truediv_exact (x : Z) :
  exact_ms x → Py.int_truediv x 1000 = x ÷ 1000.
Proof.
  unfold exact_ms. intros Hx. unfold Py.int_truediv.
  assert (Py.int (Py.truediv (Z.abs x) 1000) = Z.abs x `div` 1000) as ->.
  { set (a := Z.abs x) in *. assert (0 ≤ a) by (subst a; lia).
    pose proof (floor_log2_ratio_le a ltac:(lia)) as HL.
    unfold Py.int, Py.truediv. cbn [fst snd].
    set (e := Py.floor_log2_ratio a 1000 - 52) in *.
    assert (e ≤ -9) as He by lia.
    replace (0 <=? e) with false by (symmetry; apply Z.leb_gt; lia).
    set (S := 2 ^ (- e)).
    assert (512 ≤ S) as HS.
    { subst S. change 512 with (2 ^ 9). apply Z.pow_le_mono_r; lia. }
    destruct (round_half_even_bounds (a * S) 1000 ltac:(lia)) as [Hlo Hhi].
    set (m := Py.round_half_even (a * S) 1000) in *.
    pose proof (Z.div_mod a 1000 ltac:(lia)) as Hdm.
    pose proof (Z.mod_pos_bound a 1000 ltac:(lia)) as Hm.
    set (n := a `div` 1000) in *.
    assert (n * S ≤ (a * S) `div` 1000).
    { apply Z.div_le_lower_bound; nia. }
    symmetry. apply Z.div_unique with (r := m - n * S); nia. }
  rewrite Z.quot_div by lia. change (Z.sgn 1000) with 1.
  change (Z.abs 1000) with 1000. lia.
Qed.

(** An instant with the seconds of an exact one is exact. *)
Lemma exact_ms_same_second (t t' : Z) :
  t ÷ 1000 = t' ÷ 1000 → exact_ms t → exact_ms t'.
Proof.
  unfold exact_ms. intros Hq Ht.
  pose proof (Z.quot_rem' t 1000) as H1.
  pose proof (Z.quot_rem' t' 1000) as H2.
  pose proof (Z.rem_bound_abs t 1000 ltac:(lia)) as B1.
  pose proof (Z.rem_bound_abs t' 1000 ltac:(lia)) as B2.
  pose proof (Z.rem_sign_mul t 1000 ltac:(lia)) as S1.
  pose proof (Z.rem_sign_mul t' 1000 ltac:(lia)) as S2.
  rewrite Hq in H1.
  change (2 ^ 44) with 17592186044416 in *. nia.
Qed.

(** C9, as the job has it: the scalar function takes the epoch
    milliseconds and hands back a string; for an instant less than 2^44
    seconds from the epoch it is the decimal digits of the quotient by 1000
    truncated toward zero (the remainder it drops is below 1000 in
    magnitude and has the sign of the argument), and the engine's cast
    reads the epoch seconds back from it. *)
Theorem get_timestamp_truncates (x : Z) :
  exact_ms x →
  get_timestamp x = Sql.StringV (Py.str (x ÷ 1000)) ∧
  Sql.cast_long (get_timestamp x) = Some (x ÷ 1000) ∧
  ∃ r, x = 1000 * (x ÷ 1000) + r ∧ Z.abs r < 1000 ∧ 0 ≤ r * x.
Proof.
  intros Hx. unfold get_timestamp. rewrite (int_truediv_exact x Hx).
  split; [done|]. split; [apply cast_long_str|].
  exists (Z.rem x 1000). split; [apply Z.quot_rem'|]. split.
  - apply Z.rem_bound_abs. lia.
  - apply Z.rem_sign_mul. lia.
Qed.

(** C9, as stated, fails twice: at 1542242205796 the value handed back is
    the string "1542242205", not a long; and at 17592186044416999, 2^44
    seconds and 999 ms from the epoch, the double division rounds up to the
    next second where truncation would not. *)
Lemma get_timestamp_not_long :
  ¬ returns_long get_timestamp 1542242205796 ∧
  get_timestamp 17592186044416999 = Sql.StringV "17592186044417" ∧
  17592186044416999 ÷ 1000 = 17592186044416.
Proof.
  split; [|split; vm_compute; reflexivity].
  intros [z Hz]. vm_compute in Hz. discriminate Hz.
Qed.

(** The conversion does not round to the nearest second: 1999 ms is
    second 1. *)
Example get_timestamp_1999 : get_timestamp 1999 = Sql.StringV "1".
Proof. vm_compute. reflexivity. Qed.

Example get_timestamp_sample :
  get_timestamp 1542242205796 = Sql.StringV "1542242205".
Proof. vm_compute. reflexivity. Qed.

(** ** The song dimensions, the filter and the destinations *)

Section job_facts.
Context {double : Type} {double_eq : EqDecision double} {engine : Engine}.

Lemma dropDuplicates_twice {A} `{EqDecision A} (df : list A) :
  Sql.dropDuplicates (df ++ df) = Sql.dropDuplicates df.
Proof.
  unfold Sql.dropDuplicates.
  assert (∀ l k : list A, l ⊆ k → remove_dups (l ++ k) = remove_dups k) as Hgen.
  { induction l as [|x l IH]; intros k Hsub; [done|]. simpl.
    destruct (decide_rel elem_of x (l ++ k)) as [_|Hx].
    - apply IH. intros y Hy. apply Hsub. by right.
    - destruct Hx. apply elem_of_app. right. apply Hsub. left. }
  by apply Hgen.
Qed.

Lemma dropDuplicates_repeated {A} `{EqDecision A} (r : A) (df : list A) :
  Sql.dropDuplicates (r :: r :: df) = Sql.dropDuplicates (r :: df).
Proof.
  unfold Sql.dropDuplicates.
  change (remove_dups (r :: r :: df)) with
    (if decide_rel elem_of r (r :: df) then remove_dups (r :: df)
     else r :: remove_dups (r :: df)).
  destruct (decide_rel elem_of r (r :: df)) as [_|Hr]; [done|].
  destruct Hr. left.
Qed.

(** C5: the songs and artists tables hold no row twice and hold exactly the
    projections of the song records; a record met again, next to itself or
    in a second copy of the whole input, adds no row; and building a second
    time from the same input leaves the destinations as the first build
    left them. *)
Theorem song_dimensions_deduplicated (df : list (Song.t double))
    (r : Song.t double) (out : string) (st : gmap string Parquet) :
  NoDup (songs_table df) ∧ NoDup (artists_table df) ∧
  (∀ x, x ∈ songs_table df ↔
        ∃ s, s ∈ df ∧
          x = SongDim.mk (Song.song_id s) (Song.title s) (Song.artist_id s)
                (Song.year s) (Song.duration s)) ∧
  (∀ x, x ∈ artists_table df ↔
        ∃ s, s ∈ df ∧
          x = ArtistDim.mk (Song.artist_id s) (Song.artist_name s)
                (Song.artist_location s) (Song.artist_latitude s)
                (Song.artist_longitude s)) ∧
  songs_table (r :: r :: df) = songs_table (r :: df) ∧
  artists_table (r :: r :: df) = artists_table (r :: df) ∧
  songs_table (df ++ df) = songs_table df ∧
  artists_table (df ++ df) = artists_table df ∧
  process_song_data df out (process_song_data df out st) =
  process_song_data df out st.
Proof.
  unfold songs_table, artists_table.
  repeat split.
  - apply NoDup_remove_dups.
  - apply NoDup_fmap_2; [|apply NoDup_remove_dups].
    intros [[[[a1 a2] a3] a4] a5] [[[[b1 b2] b3] b4] b5] [=]. by subst.
  - intros Hx. apply elem_of_remove_dups, list_elem_of_fmap in Hx
      as (s & -> & Hs). eauto.
  - intros (s & Hs & ->). apply elem_of_remove_dups, list_elem_of_fmap.
    by exists s.
  - intros (t & -> & Ht)%list_elem_of_fmap.
    apply elem_of_remove_dups, list_elem_of_fmap in Ht as (s & -> & Hs).
    eauto.
  - intros (s & Hs & ->). apply list_elem_of_fmap.
    eexists (_, _, _, _, _). split; [done|].
    apply elem_of_remove_dups, list_elem_of_fmap. by exists s.
  - rewrite !fmap_cons. apply dropDuplicates_repeated.
  - rewrite !fmap_cons. f_equal. apply dropDuplicates_repeated.
  - rewrite fmap_app. apply dropDuplicates_twice.
  - rewrite fmap_app. f_equal. apply dropDuplicates_twice.
  - unfold process_song_data, parquet_overwrite.
    apply map_eq. intros path.
    rewrite !lookup_insert.
    repeat case_decide; done.
Qed.

Lemma holds_page (e : Log.t) :
  Sql.holds (Sql.eq (Log.page e) (Some "NextSong")) ↔
  Log.page e = Some "NextSong".
Proof.
  rewrite holds_eq. split.
  - by intros (a & -> & [= <-]).
  - intros ->. by eexists.
Qed.

Lemma elem_of_nextsong (events : list Log.t) (e : Log.t) :
  e ∈ nextsong events ↔ Log.page e = Some "NextSong" ∧ e ∈ events.
Proof. unfold nextsong. by rewrite list_elem_of_filter, holds_page. Qed.

Lemma nextsong_app (l k : list Log.t) :
  nextsong (l ++ k) = nextsong l ++ nextsong k.
Proof. apply filter_app. Qed.

Lemma nextsong_other (e : Log.t) (l : list Log.t) :
  Log.page e ≠ Some "NextSong" → nextsong (e :: l) = nextsong l.
Proof. intros He. apply filter_cons_False. by rewrite holds_page. Qed.

Lemma nextsong_play (e : Log.t) (l : list Log.t) :
  Log.page e = Some "NextSong" → nextsong (e :: l) = e :: nextsong l.
Proof. intros He. apply filter_cons_True. by rewrite holds_page. Qed.

(** C3: an event whose page is anything but "NextSong" leaves no trace in
    what the log stage writes: with or without it, the users, time and
    songplays destinations receive the same tables. *)
Theorem only_nextsong_events_contribute (pre post : list Log.t) (e : Log.t)
    (song_df : list (Song.t double)) (out : string)
    (st : gmap string Parquet) :
  Log.page e ≠ Some "NextSong" →
  process_log_data (pre ++ e :: post) song_df out st =
  process_log_data (pre ++ post) song_df out st.
Proof.
  intros He. unfold process_log_data.
  by rewrite !nextsong_app, nextsong_other.
Qed.

(** C6, evaluated on the code: whatever the input, the time table is stored
    with no partition column, while the songplays table is stored split by
    year and month; both replace what their destination held. *)
Theorem dim_time_written_unpartitioned (log_df : list Log.t)
    (song_df : list (Song.t double)) (out : string)
    (st : gmap string Parquet) :
  partition_cols <$> process_log_data log_df song_df out st !! (out +:+ "dim_time/")
    = Some [] ∧
  partition_cols <$>
    process_log_data log_df song_df out st !! (out +:+ "fact_songplays/")
    = Some ["year"; "month"].
Proof.
  unfold process_log_data, parquet_overwrite. split.
  - rewrite lookup_insert_ne, lookup_insert_eq; [done|].
    by intros ?%(inj (String.app out)).
  - by rewrite lookup_insert_eq.
Qed.

(** ** The time and songplays tables *)

Lemma datetime_of_get_timestamp (t : Z) :
  datetime_of (get_timestamp t) =
  Some (from_unixtime (Py.int_truediv t 1000)).
Proof. unfold datetime_of, get_timestamp. by rewrite cast_long_str. Qed.

Lemma get_timestamp_same_second (t t' : Z) :
  exact_ms t → t ÷ 1000 = t' ÷ 1000 → get_timestamp t = get_timestamp t'.
Proof.
  intros Ht Hq. unfold get_timestamp.
  rewrite (int_truediv_exact t Ht).
  rewrite (int_truediv_exact t') by by eapply exact_ms_same_second.
  by rewrite Hq.
Qed.

Lemma holds_song_match (r : Log.t * Sql.value) (s : Song.t double) :
  Sql.holds (song_match r s) ↔ matches r.1 s.
Proof.
  unfold song_match, matches. rewrite holds_and, !holds_eq. split.
  - intros [(t & ? & ?) (a & ? & ?)]. by exists t, a.
  - intros (t & a & ? & ? & ? & ?). split; [by exists t | by exists a].
Qed.

Lemma payload_songplay_row
    (j : (Log.t * Sql.value) * option (Song.t double) * option string)
    (id : Z) :
  Fact.payload (songplay_row (j, id)) = payload_of j.
Proof. by destruct j as [[r s] d]. Qed.

Lemma songplay_id_songplay_row
    (j : (Log.t * Sql.value) * option (Song.t double) * option string)
    (id : Z) :
  Fact.songplay_id (songplay_row (j, id)) = id.
Proof. by destruct j as [[r s] d]. Qed.

(** The fact table without its keys is the dated join, row by row. *)
Lemma songplays_payload (df : list (Log.t * Sql.value))
    (song_df : list (Song.t double)) :
  Fact.payload <$> songplays_table df song_df =
  payload_of <$> dated_plays df song_df.
Proof.
  unfold songplays_table. rewrite <- list_fmap_compose.
  trans (payload_of <$>
           (concat (Sql.monotonically_increasing_id
                      (partitions _ (dated_plays df song_df)))).*1).
  - rewrite <- list_fmap_compose. apply list_fmap_ext.
    intros _ [j id] _. apply payload_songplay_row.
  - by rewrite numbered_fst, partitions_concat.
Qed.

Lemma length_songplays (df : list (Log.t * Sql.value))
    (song_df : list (Song.t double)) :
  length (songplays_table df song_df) =
  length (Sql.left_join song_match df song_df).
Proof.
  rewrite <- (length_fmap Fact.payload), songplays_payload.
  unfold dated_plays, Sql.withColumn. by rewrite !length_fmap.
Qed.

(** The number of fact rows, event by event. *)
Lemma count_songplays (df : list Log.t) (song_df : list (Song.t double)) :
  length (songplays_table (with_ts_ms df) song_df) =
  sum_list_with
    (λ e, Nat.max 1 (length (filter (matches e) song_df))) df.
Proof.
  rewrite length_songplays, length_left_join.
  unfold with_ts_ms, Sql.withColumn.
  induction df as [|e df IH]; [done|].
  cbn [fmap list_fmap sum_list_with]. f_equal; [|apply IH].
  f_equal. f_equal. apply list_filter_iff. intros s.
  apply holds_song_match.
Qed.

(** C2, as the job has it: every filtered event gives as many fact rows as
    it has matching song records, and one row when it has none; so the fact
    table has at least as many rows as there are filtered events, and
    exactly as many when no filtered event matches more than one song
    record, however many match none. *)
Theorem fact_row_count (events : list Log.t)
    (song_df : list (Song.t double)) :
  length (songplays_table (with_ts_ms (nextsong events)) song_df) =
    sum_list_with
      (λ e, Nat.max 1 (length (filter (matches e) song_df)))
      (nextsong events) ∧
  (length (nextsong events) ≤
     length (songplays_table (with_ts_ms (nextsong events)) song_df))%nat ∧
  (Forall (λ e, (length (filter (matches e) song_df) ≤ 1)%nat)
     (nextsong events) →
   length (songplays_table (with_ts_ms (nextsong events)) song_df) =
   length (nextsong events)).
Proof.
  rewrite count_songplays. split; [done|].
  generalize (nextsong events). intros df. split.
  - induction df as [|e df IH]; simpl; lia.
  - induction 1 as [|e df He _ IH]; simpl; lia.
Qed.

(** C7: when the engine's layout of the joined rows fits the bit fields of
    the key (at most 2^31 partitions of at most 2^33 rows), no two rows of
    the fact table carry the same songplay_id. *)
Theorem songplay_ids_distinct (df : list (Log.t * Sql.value))
    (song_df : list (Song.t double)) :
  id_capacity (partitions _ (dated_plays df song_df)) →
  NoDup (Fact.songplay_id <$> songplays_table df song_df).
Proof.
  intros Hcap. unfold songplays_table.
  rewrite <- list_fmap_compose.
  rewrite (list_fmap_ext _ snd).
  - by apply NoDup_ids.
  - intros _ [j id] _. apply songplay_id_songplay_row.
Qed.

(** C8: a filtered event that matches no song record still has its row in
    the fact table; that row has null song_id and artist_id, and its other
    columns are those of the event: the start time of its second with the
    year and month read from it, user, level, session, location and user
    agent. *)
Theorem unmatched_play_kept (events : list Log.t)
    (song_df : list (Song.t double)) (e : Log.t) :
  e ∈ nextsong events →
  Forall (λ s, ¬ matches e s) song_df →
  ∃ id,
    Fact.mk id (Some (from_unixtime (Py.int_truediv (Log.ts e) 1000))) (Log.userId e)
      (Log.level e) None None (Log.sessionId e) (Log.location e)
      (Log.userAgent e) (year (from_unixtime (Py.int_truediv (Log.ts e) 1000)))
      (month (from_unixtime (Py.int_truediv (Log.ts e) 1000)))
    ∈ songplays_table (with_ts_ms (nextsong events)) song_df.
Proof.
  intros He Hno.
  set (r := (e, get_timestamp (Log.ts e))).
  assert (r ∈ with_ts_ms (nextsong events)) as Hr.
  { apply list_elem_of_fmap. by exists e. }
  assert ((r, None, datetime_of r.2) ∈ dated_plays (with_ts_ms (nextsong events)) song_df)
    as Hj.
  { apply list_elem_of_fmap. exists (r, None). split; [done|].
    apply left_join_unmatched; [done|].
    eapply Forall_impl; [exact Hno|]. intros s Hs Hm.
    by apply holds_song_match in Hm. }
  rewrite <- (partitions_concat _ (dated_plays _ _)), <- numbered_fst in Hj.
  apply list_elem_of_fmap in Hj as ([j id] & Hj & Hin). simpl in Hj. subst j.
  exists id. unfold songplays_table.
  apply list_elem_of_fmap. eexists. split; [|exact Hin].
  simpl. by rewrite datetime_of_get_timestamp.
Qed.

Lemma same_second_page (e e' : Log.t) :
  same_second e e' → Log.page e' = Log.page e.
Proof. by intros [-> _]. Qed.

Lemma nextsong_same_second (l l' : list Log.t) :
  Forall2 same_second l l' →
  Forall2 same_second (nextsong l) (nextsong l').
Proof.
  induction 1 as [|e e' l l' He _ IH]; [constructor|].
  destruct (decide (Log.page e = Some "NextSong")) as [Hp|Hp].
  - rewrite !nextsong_play by by rewrite ?(same_second_page e e').
    by constructor.
  - by rewrite !nextsong_other by by rewrite ?(same_second_page e e').
Qed.

Lemma time_table_same_second (l l' : list Log.t) :
  Forall (λ e, exact_ms (Log.ts e)) l →
  Forall2 same_second l l' →
  time_table (with_ts_ms l) = time_table (with_ts_ms l').
Proof.
  intros Hx Hs. revert Hx.
  induction Hs as [|e e' l l' [_ He] _ IH]; [done|].
  intros [Hxe Hx]%Forall_cons. specialize (IH Hx).
  unfold time_table, with_ts_ms, Sql.withColumn in *.
  cbn [fmap list_fmap snd]. cbn [fmap] in IH.
  by rewrite IH, (get_timestamp_same_second _ _ Hxe He).
Qed.

Lemma dated_plays_cons (r : Log.t * Sql.value) (df : list (Log.t * Sql.value))
    (song_df : list (Song.t double)) :
  dated_plays (r :: df) song_df =
  dated_plays [r] song_df ++ dated_plays df song_df.
Proof.
  unfold dated_plays, Sql.withColumn, Sql.left_join.
  rewrite bind_cons, bind_one. apply fmap_app.
Qed.

Lemma dated_plays_one (e : Log.t) (v : Sql.value)
    (song_df : list (Song.t double)) :
  payload_of <$> dated_plays [(e, v)] song_df =
  match filter (matches e) song_df with
  | [] => [payload_of (double := double) ((e, v), None, datetime_of v)]
  | ms => (λ s, payload_of ((e, v), Some s, datetime_of v)) <$> ms
  end.
Proof.
  unfold dated_plays, Sql.withColumn, Sql.left_join.
  rewrite bind_one.
  rewrite (list_filter_iff _ (matches e)) by (intros s; apply holds_song_match).
  destruct (filter (matches e) song_df) as [|s ms]; [done|].
  by rewrite <- !list_fmap_compose.
Qed.

Lemma payload_same_second (l l' : list Log.t)
    (song_df : list (Song.t double)) :
  Forall (λ e, exact_ms (Log.ts e)) l →
  Forall2 same_second l l' →
  payload_of <$> dated_plays (with_ts_ms l) song_df =
  payload_of <$> dated_plays (with_ts_ms l') song_df.
Proof.
  intros Hx Hss. revert Hx.
  induction Hss as [|e e' l l' [He Hs] _ IH]; [done|].
  intros [Hxe Hx]%Forall_cons. specialize (IH Hx).
  unfold with_ts_ms, Sql.withColumn in *. cbn [fmap list_fmap] in *.
  rewrite (dated_plays_cons _ _ song_df), (dated_plays_cons (e', _) _ song_df).
  rewrite !fmap_app, IH. f_equal.
  rewrite !dated_plays_one, <- (get_timestamp_same_second _ _ Hxe Hs).
  rewrite (list_filter_iff (matches e') (matches e)) by by rewrite He.
  rewrite He. by destruct (filter (matches e) song_df).
Qed.

(** Where a row of the time table comes from. *)
Lemma elem_of_time_table (df : list Log.t) (row : TimeDim.t) :
  row ∈ time_table (with_ts_ms df) →
  ∃ e, e ∈ df ∧
    row = TimeDim.mk (Some (from_unixtime (Py.int_truediv (Log.ts e) 1000)))
            (hour (from_unixtime (Py.int_truediv (Log.ts e) 1000)))
            (dayofmonth (from_unixtime (Py.int_truediv (Log.ts e) 1000)))
            (weekofyear (from_unixtime (Py.int_truediv (Log.ts e) 1000)))
            (month (from_unixtime (Py.int_truediv (Log.ts e) 1000)))
            (year (from_unixtime (Py.int_truediv (Log.ts e) 1000)))
            (dayofweek (from_unixtime (Py.int_truediv (Log.ts e) 1000))).
Proof.
  unfold time_table, with_ts_ms, Sql.withColumn.
  intros (r & -> & (e & -> & He)%list_elem_of_fmap)%list_elem_of_fmap.
  exists e. split; [done|]. simpl. by rewrite datetime_of_get_timestamp.
Qed.

(** Where a row of the fact table comes from: a filtered event, and a song
    record it matches or none when it matches no record. *)
Lemma elem_of_songplays (df : list Log.t) (song_df : list (Song.t double))
    (row : Fact.t) :
  row ∈ songplays_table (with_ts_ms df) song_df →
  ∃ e s id, e ∈ df ∧
    match s with
    | Some s' => s' ∈ song_df ∧ matches e s'
    | None => Forall (λ s', ¬ matches e s') song_df
    end ∧
    row = Fact.mk id (Some (from_unixtime (Py.int_truediv (Log.ts e) 1000))) (Log.userId e)
            (Log.level e) (s ≫= Song.song_id) (s ≫= Song.artist_id)
            (Log.sessionId e) (Log.location e) (Log.userAgent e)
            (year (from_unixtime (Py.int_truediv (Log.ts e) 1000)))
            (month (from_unixtime (Py.int_truediv (Log.ts e) 1000))).
Proof.
  unfold songplays_table.
  intros ([j id] & -> & Hin)%list_elem_of_fmap.
  assert (j ∈ dated_plays (with_ts_ms df) song_df) as Hj.
  { rewrite <- (partitions_concat _ (dated_plays _ _)), <- numbered_fst.
    apply list_elem_of_fmap. by exists (j, id). }
  unfold dated_plays, Sql.withColumn in Hj.
  apply list_elem_of_fmap in Hj as ([r s] & -> & Hj).
  apply elem_of_left_join in Hj as [Hr Hs].
  apply list_elem_of_fmap in Hr as (e & -> & He).
  exists e, s, id. split; [done|]. split.
  - destruct s as [s'|].
    + destruct Hs as [? Hm]. by apply holds_song_match in Hm.
    + eapply Forall_impl; [exact Hs|]. intros s' Hs' Hm.
      by apply Hs', holds_song_match.
  - simpl. by rewrite datetime_of_get_timestamp.
Qed.

(** C10, as the job has it: for filtered events less than 2^44 seconds from
    the epoch every stored start_time, in the time table and in the fact
    table, is the rendering of the truncated seconds [ts ÷ 1000] of a
    filtered event, and every calendar field is read from that rendering;
    so two such logs whose events differ pairwise only inside the second of
    their ts yield the same time table and, keys aside, the same fact
    table. *)
Theorem whole_second_granularity (events events' : list Log.t)
    (song_df : list (Song.t double)) :
  Forall (λ e, exact_ms (Log.ts e)) (nextsong events) →
  Forall2 same_second events events' →
  (∀ row, row ∈ time_table (with_ts_ms (nextsong events)) →
     ∃ e, e ∈ nextsong events ∧
       row = TimeDim.mk (Some (from_unixtime (Log.ts e ÷ 1000)))
               (hour (from_unixtime (Log.ts e ÷ 1000)))
               (dayofmonth (from_unixtime (Log.ts e ÷ 1000)))
               (weekofyear (from_unixtime (Log.ts e ÷ 1000)))
               (month (from_unixtime (Log.ts e ÷ 1000)))
               (year (from_unixtime (Log.ts e ÷ 1000)))
               (dayofweek (from_unixtime (Log.ts e ÷ 1000)))) ∧
  (∀ row, row ∈ songplays_table (with_ts_ms (nextsong events)) song_df →
     ∃ e, e ∈ nextsong events ∧
       Fact.start_time row = Some (from_unixtime (Log.ts e ÷ 1000)) ∧
       Fact.year row = year (from_unixtime (Log.ts e ÷ 1000)) ∧
       Fact.month row = month (from_unixtime (Log.ts e ÷ 1000))) ∧
  time_table (with_ts_ms (nextsong events)) =
  time_table (with_ts_ms (nextsong events')) ∧
  Fact.payload <$> songplays_table (with_ts_ms (nextsong events)) song_df =
  Fact.payload <$> songplays_table (with_ts_ms (nextsong events')) song_df.
Proof.
  intros Hx Hs%nextsong_same_second.
  rewrite Forall_forall in Hx. repeat split.
  - intros row (e & He & ->)%elem_of_time_table.
    exists e. by rewrite (int_truediv_exact _ (Hx e He)).
  - intros row (e & s & id & He & _ & ->)%elem_of_songplays.
    exists e. by rewrite (int_truediv_exact _ (Hx e He)).
  - apply time_table_same_second; [by apply Forall_forall | done].
  - rewrite !songplays_payload.
    apply payload_same_second; [by apply Forall_forall | done].
Qed.

(** ** The users table *)

Lemma holds_mask (e : Log.t) (g : option string * option Z) :
  Sql.holds (mask e g) ↔
  ∃ u, Log.userId e = Some u ∧ g.1 = Some u ∧ g.2 = Some (Log.ts e).
Proof.
  unfold mask. rewrite holds_and, !holds_eq. split.
  - intros [(u & ? & ?) (t & [= <-] & ?)]. by exists u.
  - intros (u & ? & ? & ?). split; [by exists u | by eexists].
Qed.

Lemma elem_of_max_ts_user_df (df : list Log.t) (g : option string * option Z) :
  g ∈ max_ts_user_df df ↔
  g.1 ∈ Log.userId <$> df ∧
  g.2 = Sql.max (Log.ts <$> filter (λ e, Log.userId e = g.1) df).
Proof.
  unfold max_ts_user_df. rewrite list_elem_of_fmap. split.
  - intros (k & -> & Hk). rewrite elem_of_remove_dups in Hk. by split.
  - intros [Hk Hm]. exists g.1. rewrite elem_of_remove_dups.
    split; [|done]. destruct g as [k m]. simpl in *. by subst.
Qed.

Lemma length_filter_key {K C} (F : K → C) (P : C → Prop)
    `{!∀ c, Decision (P c)} (ks : list K) (k0 : K) :
  NoDup ks → k0 ∈ ks → (∀ k, P (F k) → k = k0) →
  length (filter P (F <$> ks)) = if decide (P (F k0)) then 1%nat else 0%nat.
Proof.
  intros Hnd Hin Hkey.
  induction Hnd as [|k ks Hk Hnd IH]; [by apply elem_of_nil in Hin|].
  rewrite fmap_cons, filter_cons.
  apply elem_of_cons in Hin as [<-|Hin].
  - assert (filter P (F <$> ks) = []) as ->.
    { apply filter_none, Forall_fmap, Forall_forall.
      intros k' Hk' HP. apply Hkey in HP. by subst. }
    by destruct (decide (P (F k0))).
  - rewrite decide_False; [by apply IH|].
    intros HP. apply Hkey in HP. by subst.
Qed.

Lemma length_filter_const {C D} (P : D → Prop) `{!∀ d, Decision (P d)}
    (d : D) (cs : list C) :
  length (filter P ((λ _, d) <$> cs)) =
  if decide (P d) then length cs else 0%nat.
Proof.
  induction cs as [|c cs IH]; [by destruct (decide (P d))|].
  rewrite fmap_cons, filter_cons.
  destruct (decide (P d)); simpl; by rewrite IH.
Qed.

(** The rows one event has in the join: one when it carries the maximum of
    its user, none otherwise. *)
Lemma length_partners (df : list Log.t) (e : Log.t) :
  e ∈ df →
  length (filter (λ g, Sql.holds (mask e g)) (max_ts_user_df df)) =
  if decide (is_Some (Log.userId e) ∧
             Sql.max (Log.ts <$> filter (λ e', Log.userId e' = Log.userId e) df)
             = Some (Log.ts e))
  then 1%nat else 0%nat.
Proof.
  intros He. unfold max_ts_user_df.
  rewrite (length_filter_key _ _ _ (Log.userId e)).
  - apply decide_ext. rewrite holds_mask. simpl. split.
    + intros (u & Hu & _ & Hm). by rewrite Hu in *.
    + intros [[u Hu] Hm]. exists u. by rewrite Hu in *.
  - apply NoDup_remove_dups.
  - apply elem_of_remove_dups, list_elem_of_fmap. by exists e.
  - intros k (u & Hu & Hk & _)%holds_mask. simpl in Hk. congruence.
Qed.

Lemma rows_of_user_join (df l : list Log.t) (u : string) (m : Z) :
  l ⊆ df →
  Sql.max (Log.ts <$> filter (λ e, Log.userId e = Some u) df) = Some m →
  rows_of_user u (user_row <$> Sql.inner_join mask l (max_ts_user_df df)) =
  length (filter (λ e, Log.userId e = Some u ∧ Log.ts e = m) l).
Proof.
  intros Hsub Hm. rewrite inner_join_filter. unfold rows_of_user.
  induction l as [|e l IH]; [done|].
  rewrite bind_cons, fmap_app, filter_app, length_app, filter_cons.
  rewrite IH by (intros x Hx; apply Hsub; by right).
  rewrite <- list_fmap_compose.
  rewrite (length_filter_const (λ r, UserDim.user_id r = Some u)
             (user_row (e, (None, None)))).
  rewrite length_partners by (apply Hsub; left).
  unfold user_row. simpl.
  destruct (decide (Log.userId e = Some u)) as [Hu|Hu].
  - rewrite Hu, Hm.
    destruct (decide (Some u = Some u ∧ Log.ts e = m)) as [[_ <-]|Hn].
    + by rewrite decide_True by (split; [by eexists | done]).
    + rewrite decide_False; [done|]. intros [_ [= ?]]. by apply Hn.
  - rewrite decide_False by (by intros [? _]). done.
Qed.

(** C1: a row of the users table that belongs to user [u] carries the
    first name, last name, gender and level of a filtered event of [u], and
    no filtered event of [u] is later than that event. *)
Theorem users_latest_state (events : list Log.t) (u : string)
    (row : UserDim.t) :
  row ∈ users_table (nextsong events) →
  UserDim.user_id row = Some u →
  ∃ e, e ∈ nextsong events ∧ Log.userId e = Some u ∧
       UserDim.first_name row = Log.firstName e ∧
       UserDim.last_name row = Log.lastName e ∧
       UserDim.gender row = Log.gender e ∧
       UserDim.level row = Log.level e ∧
       ∀ e', e' ∈ nextsong events → Log.userId e' = Some u →
             Log.ts e' ≤ Log.ts e.
Proof.
  unfold users_table. generalize (nextsong events). intros df Hrow Hu.
  apply list_elem_of_fmap in Hrow as ([e g] & -> & Hj).
  unfold Sql.inner_join in Hj.
  apply list_elem_of_bind in Hj as (e0 & Hj & He).
  apply list_elem_of_bind in Hj as (g0 & Hj & Hg).
  destruct (Sql.holds (mask e0 g0)) eqn:Hmask;
    [|by apply elem_of_nil in Hj].
  apply list_elem_of_singleton in Hj as [= -> ->].
  apply Is_true_true, holds_mask in Hmask as (u' & Hu' & Hg1 & Hg2).
  simpl in Hu. rewrite Hu' in Hu. injection Hu as ->.
  apply elem_of_max_ts_user_df in Hg as [_ Hmax].
  rewrite Hg1, Hg2 in Hmax. symmetry in Hmax.
  apply max_spec in Hmax as [_ Hub].
  exists e0. repeat split; try done.
  intros e' He' Hu''. apply Hub, list_elem_of_fmap.
  exists e'. split; [done|]. by apply list_elem_of_filter.
Qed.

(** C4, as the job has it: a user of the filtered events is never absent
    from the users table, and has there as many rows as filtered events at
    the user's maximum ts: one row when a single event reaches the maximum,
    several when the maximum is tied. *)
Theorem users_rows_per_user (events : list Log.t) (u : string) :
  Some u ∈ Log.userId <$> nextsong events →
  ∃ m,
    Sql.max (Log.ts <$> filter (λ e, Log.userId e = Some u) (nextsong events))
      = Some m ∧
    rows_of_user u (users_table (nextsong events)) =
      length (filter (λ e, Log.userId e = Some u ∧ Log.ts e = m)
                (nextsong events)) ∧
    (1 ≤ rows_of_user u (users_table (nextsong events)))%nat.
Proof.
  generalize (nextsong events). intros df Hu.
  apply list_elem_of_fmap in Hu as (e & Hu & He).
  destruct (max_is_Some (Log.ts <$> filter (λ e, Log.userId e = Some u) df)
              (Log.ts e)) as [m Hm].
  { apply list_elem_of_fmap. exists e. split; [done|].
    by apply list_elem_of_filter. }
  exists m. split; [done|].
  unfold users_table. rewrite (rows_of_user_join df df u m) by done.
  split; [done|].
  apply max_spec in Hm as [Hin _].
  apply list_elem_of_fmap in Hin as (e1 & -> & He1).
  apply list_elem_of_filter in He1 as [Hu1 He1].
  assert (e1 ∈ filter (λ e, Log.userId e = Some u ∧ Log.ts e = Log.ts e1) df)
    as Hne by by apply list_elem_of_filter.
  destruct (filter _ df); [by apply elem_of_nil in Hne | simpl; lia].
Qed.

End job_facts.

(** ** The properties on the sample data *)

(** The user who upgraded appears once, on the paid tier. *)
Example users_table_upgrade :
  users_table (nextsong Sample.upgrade) =
  [UserDim.mk (Some "u1") (Some "Lily") (Some "Koch") (Some "F") (Some "paid")].
Proof. reflexivity. Qed.

(** The row of u1 is the one of the play at ts = 200. *)
Lemma users_latest_state_witness :
  let row :=
    UserDim.mk (Some "u1") (Some "Lily") (Some "Koch") (Some "F") (Some "paid")
  in
  row ∈ users_table (nextsong Sample.upgrade) ∧
  UserDim.user_id row = Some "u1" ∧
  ∃ e, e ∈ nextsong Sample.upgrade ∧ Log.userId e = Some "u1" ∧
       UserDim.first_name row = Log.firstName e ∧
       UserDim.last_name row = Log.lastName e ∧
       UserDim.gender row = Log.gender e ∧
       UserDim.level row = Log.level e ∧
       ∀ e', e' ∈ nextsong Sample.upgrade → Log.userId e' = Some "u1" →
             Log.ts e' ≤ Log.ts e.
Proof.
  intros row.
  assert (row ∈ users_table (nextsong Sample.upgrade)) as Hrow.
  { vm_compute. left. }
  split; [exact Hrow|]. split; [reflexivity|].
  exact (users_latest_state Sample.upgrade "u1" row Hrow eq_refl).
Defined.

(** C4, as stated, fails on two plays of one user at one instant: the
    user has two rows. *)
Lemma tie_gives_two_rows :
  ¬ one_row_per_user (nextsong Sample.tie) (users_table (nextsong Sample.tie)).
Proof.
  intros Hone. specialize (Hone "u1").
  assert (Some "u1" ∈ Log.userId <$> nextsong Sample.tie) as Hu.
  { vm_compute. left. }
  apply Hone in Hu. vm_compute in Hu. discriminate Hu.
Qed.

(** On the tie u1 is present, with the two rows of the two plays at the
    maximum. *)
Lemma users_rows_per_user_witness :
  Some "u1" ∈ Log.userId <$> nextsong Sample.tie ∧
  ∃ m,
    Sql.max
      (Log.ts <$> filter (λ e, Log.userId e = Some "u1") (nextsong Sample.tie))
      = Some m ∧
    rows_of_user "u1" (users_table (nextsong Sample.tie)) =
      length (filter (λ e, Log.userId e = Some "u1" ∧ Log.ts e = m)
                (nextsong Sample.tie)) ∧
    (1 ≤ rows_of_user "u1" (users_table (nextsong Sample.tie)))%nat.
Proof.
  assert (Some "u1" ∈ Log.userId <$> nextsong Sample.tie) as Hu.
  { vm_compute. left. }
  split; [exact Hu|].
  exact (users_rows_per_user Sample.tie "u1" Hu).
Defined.

(** Three events of which one is a login leave two rows in the time table;
    the page is compared as it is spelled. *)
Example time_table_session :
  length (time_table (engine := Utc.engine 1)
            (with_ts_ms (nextsong Sample.session))) = 2%nat.
Proof. reflexivity. Qed.

Example nextsong_spelling :
  nextsong [Sample.visit "nextsong" "u1" 150; Sample.visit "NextSong " "u1" 160]
  = [].
Proof. reflexivity. Qed.

(** The session with its login writes what the two plays alone write. *)
Lemma only_nextsong_events_contribute_witness :
  Log.page (Sample.visit "Login" "u1" 150) ≠ Some "NextSong" ∧
  process_log_data (engine := Utc.engine 1) Sample.session Sample.catalogue
    output_data ∅ =
  process_log_data (engine := Utc.engine 1) Sample.upgrade Sample.catalogue
    output_data ∅.
Proof.
  assert (Log.page (Sample.visit "Login" "u1" 150) ≠ Some "NextSong") as Hp.
  { discriminate. }
  split; [exact Hp|].
  exact (only_nextsong_events_contribute (engine := Utc.engine 1)
           [Sample.u1_free] [Sample.u1_paid] (Sample.visit "Login" "u1" 150)
           Sample.catalogue output_data ∅ Hp).
Defined.

(** C2, as stated, fails when a play matches two song records: one
    filtered event, two fact rows. *)
Lemma reissue_doubles_the_play :
  length (songplays_table (engine := Utc.engine 2)
            (with_ts_ms (nextsong [Sample.u1_free]))
            [Sample.setanta; Sample.setanta_reissue])
  ≠ length (nextsong [Sample.u1_free]).
Proof. vm_compute. discriminate. Qed.

(** Five plays, two song records matched: five rows, three of them with a
    null song_id. *)
Example songplays_five_plays :
  Fact.song_id <$>
    songplays_table (engine := Utc.engine 2)
      (with_ts_ms (nextsong Sample.five_plays)) Sample.catalogue =
  [Some "SOZCTXZ12AB0182364"; Some "SOINTRO12AB0182364"; None; None; None].
Proof. vm_compute. reflexivity. Qed.

(** No play of the five matches two records: five rows. *)
Lemma fact_row_count_witness :
  Forall (λ e, (length (filter (matches e) Sample.catalogue) ≤ 1)%nat)
    (nextsong Sample.five_plays) ∧
  length (songplays_table (engine := Utc.engine 2)
            (with_ts_ms (nextsong Sample.five_plays)) Sample.catalogue)
  = 5%nat.
Proof.
  assert (Forall (λ e, (length (filter (matches e) Sample.catalogue) ≤ 1)%nat)
            (nextsong Sample.five_plays)) as Hone.
  { apply (bool_decide_unpack _). vm_compute. exact I. }
  split; [exact Hone|].
  exact (proj2 (proj2 (fact_row_count (engine := Utc.engine 2)
                         Sample.five_plays Sample.catalogue)) Hone).
Defined.

(** With two rows in the first partition the keys of the five plays are 0
    and 1, then 2^33 onward; with one row there they are other numbers, so
    a key says nothing outside the run that gave it. *)
Example songplay_ids_five_plays :
  Fact.songplay_id <$>
    songplays_table (engine := Utc.engine 2)
      (with_ts_ms (nextsong Sample.five_plays)) Sample.catalogue =
  [0; 1; 8589934592; 8589934593; 8589934594] ∧
  Fact.songplay_id <$>
    songplays_table (engine := Utc.engine 1)
      (with_ts_ms (nextsong Sample.five_plays)) Sample.catalogue =
  [0; 8589934592; 8589934593; 8589934594; 8589934595].
Proof. split; vm_compute; reflexivity. Qed.

(** Two partitions of two and three rows fit the key. *)
Lemma songplay_ids_distinct_witness :
  id_capacity
    (partitions (Engine := Utc.engine 2) _
       (dated_plays (engine := Utc.engine 2)
          (with_ts_ms (nextsong Sample.five_plays)) Sample.catalogue)) ∧
  NoDup (Fact.songplay_id <$>
           songplays_table (engine := Utc.engine 2)
             (with_ts_ms (nextsong Sample.five_plays)) Sample.catalogue).
Proof.
  assert (id_capacity
    (partitions (Engine := Utc.engine 2) _
       (dated_plays (engine := Utc.engine 2)
          (with_ts_ms (nextsong Sample.five_plays)) Sample.catalogue)))
    as Hcap.
  { unfold id_capacity. apply (bool_decide_unpack _). vm_compute. exact I. }
  split; [exact Hcap|].
  exact (songplay_ids_distinct (engine := Utc.engine 2)
           (with_ts_ms (nextsong Sample.five_plays)) Sample.catalogue Hcap).
Defined.

(** The play of "setanta matins" differs from the record "Setanta matins"
    in one capital: no match, and the row is there with null keys. *)
Lemma unmatched_play_kept_witness :
  let e :=
    Sample.play "u2" "Ava" "Robinson" "free" 1542242481796 "setanta matins"
      "Elena" in
  e ∈ nextsong Sample.five_plays ∧
  Forall (λ s, ¬ matches e s) Sample.catalogue ∧
  ∃ id,
    Fact.mk id (Some "2018-11-15 00:41:21") (Some "u2") (Some "free") None
      None (Some 583) (Some "Lansing-East Lansing, MI") (Some "Mozilla/5.0")
      (Some 2018) (Some 11)
    ∈ songplays_table (engine := Utc.engine 2)
        (with_ts_ms (nextsong Sample.five_plays)) Sample.catalogue.
Proof.
  intros e.
  assert (e ∈ nextsong Sample.five_plays) as He.
  { vm_compute. do 3 right. left. }
  assert (Forall (λ s, ¬ matches e s) Sample.catalogue) as Hno.
  { apply (bool_decide_unpack _). vm_compute. exact I. }
  split; [exact He|]. split; [exact Hno|].
  exact (unmatched_play_kept (engine := Utc.engine 2) Sample.five_plays
           Sample.catalogue e He Hno).
Defined.

(** Two plays 795 ms apart inside one second are told apart by no output. *)
Lemma whole_second_granularity_witness :
  let e := Sample.play "u2" "Ava" "Robinson" "free" 1542242205796 "Intro" "Gob" in
  let e' := Sample.play "u2" "Ava" "Robinson" "free" 1542242205001 "Intro" "Gob" in
  Forall (λ e, exact_ms (Log.ts e)) (nextsong [e]) ∧
  Forall2 same_second [e] [e'] ∧ e ≠ e' ∧
  time_table (engine := Utc.engine 1) (with_ts_ms (nextsong [e])) =
  time_table (engine := Utc.engine 1) (with_ts_ms (nextsong [e'])) ∧
  Fact.payload <$>
    songplays_table (engine := Utc.engine 1) (with_ts_ms (nextsong [e]))
      Sample.catalogue =
  Fact.payload <$>
    songplays_table (engine := Utc.engine 1) (with_ts_ms (nextsong [e']))
      Sample.catalogue.
Proof.
  intros e e'.
  assert (Forall (λ e, exact_ms (Log.ts e)) (nextsong [e])) as Hx.
  { apply (bool_decide_unpack _). vm_compute. exact I. }
  assert (Forall2 same_second [e] [e']) as Hs.
  { repeat constructor. }
  split; [exact Hx|]. split; [exact Hs|]. split; [discriminate|].
  exact (proj2 (proj2 (whole_second_granularity (engine := Utc.engine 1)
                         [e] [e'] Sample.catalogue Hx Hs))).
Defined.

(** C10, as stated, fails 2^44 seconds from the epoch: two plays inside one
    second, 999 ms apart, of which the double division puts the later in
    the next second; their rows in the time table differ. *)
Lemma same_second_two_start_times :
  let e :=
    Sample.play "u2" "Ava" "Robinson" "free" 17592186044416000 "Intro" "Gob" in
  let e' :=
    Sample.play "u2" "Ava" "Robinson" "free" 17592186044416999 "Intro" "Gob" in
  Forall2 same_second [e] [e'] ∧
  time_table (engine := Utc.engine 1) (with_ts_ms (nextsong [e])) ≠
  time_table (engine := Utc.engine 1) (with_ts_ms (nextsong [e'])).
Proof.
  intros e e'. split; [repeat constructor|].
  intros Heq. vm_compute in Heq. discriminate Heq.
Qed.

(** The calendar of the UTC engine on a known instant: 1542242205796 ms is
    Thursday 2018-11-15 00:36:45, in ISO week 46. *)
Example time_table_instant :
  time_table (engine := Utc.engine 1)
    (with_ts_ms
       (nextsong
          [Sample.play "u2" "Ava" "Robinson" "free" 1542242205796 "Intro" "Gob"]))
  = [TimeDim.mk (Some "2018-11-15 00:36:45") (Some 0) (Some 15) (Some 46)
       (Some 11) (Some 2018) (Some 5)].
Proof. vm_compute. reflexivity. Qed.

(** ** The run as a whole: destinations and reruns *)

Section run_facts.
Context {double : Type} {double_eq : EqDecision double} {engine : Engine}.

Local Ltac lookup_writes :=
  unfold parquet_overwrite; rewrite ?lookup_insert;
  repeat case_decide; simplify_eq; try done.

(** After a run each of the five destinations holds the table built for
    it, under the layout its write asked for: the later writes of the run
    do not disturb the earlier ones. *)
Theorem main_destinations (song_df : list (Song.t double))
    (log_df : list Log.t) (st : gmap string Parquet) :
  main song_df log_df st !! (output_data +:+ "dim_songs/") =
    Some {| partition_cols := ["year"; "artist_id"];
            rows := SongsT (songs_table song_df) |} ∧
  main song_df log_df st !! (output_data +:+ "dim_artists/") =
    Some {| partition_cols := [];
            rows := ArtistsT (artists_table song_df) |} ∧
  main song_df log_df st !! (output_data +:+ "dim_users/") =
    Some {| partition_cols := [];
            rows := UsersT (users_table (nextsong log_df)) |} ∧
  main song_df log_df st !! (output_data +:+ "dim_time/") =
    Some {| partition_cols := [];
            rows := TimeT (time_table (with_ts_ms (nextsong log_df))) |} ∧
  main song_df log_df st !! (output_data +:+ "fact_songplays/") =
    Some {| partition_cols := ["year"; "month"];
            rows := SongplaysT
                      (songplays_table (with_ts_ms (nextsong log_df)) song_df)
         |}.
Proof.
  unfold main, process_log_data, process_song_data.
  repeat split; lookup_writes.
Qed.



(** The song stage and the log stage write to different places: run in
    either order, on any output root, they leave the same store. *)
Theorem stages_commute (song_df song_df' : list (Song.t double))
    (log_df : list Log.t) (out : string) (st : gmap string Parquet) :
  process_log_data log_df song_df out (process_song_data song_df' out st) =
  process_song_data song_df' out (process_log_data log_df song_df out st).
Proof.
  apply map_eq. intros path.
  unfold process_log_data, process_song_data. lookup_writes.
Qed.

End run_facts.

(** ** More on the tables *)

Section table_facts.
Context {double : Type} {double_eq : EqDecision double} {engine : Engine}.

(** No row of the users table has a null user_id: a row belongs to a user
    of the events it was built from, and an event without a user id gives
    no row. *)
Theorem users_rows_have_a_user (df : list Log.t) (row : UserDim.t) :
  row ∈ users_table df →
  ∃ u e, e ∈ df ∧ Log.userId e = Some u ∧ UserDim.user_id row = Some u.
Proof.
  unfold users_table. rewrite inner_join_filter.
  intros ([e g] & -> & Hj)%list_elem_of_fmap.
  apply list_elem_of_bind in Hj as (e' & Hj & He').
  apply list_elem_of_fmap in Hj as (g' & [= -> ->] & Hg).
  apply list_elem_of_filter in Hg as [(u & Hu & _)%holds_mask _].
  by exists u, e'.
Qed.

Lemma length_filter_NoDup_key {A K : Type} `{EqDecision K} (f : A → K)
    (k : K) (l : list A) :
  NoDup (f <$> l) → (length (filter (λ a, f a = k) l) ≤ 1)%nat.
Proof.
  induction l as [|a l IH]; [simpl; lia|].
  rewrite fmap_cons, NoDup_cons. intros [Ha Hnd].
  rewrite filter_cons. destruct (decide (f a = k)) as [<-|]; [|by apply IH].
  rewrite filter_none; [simpl; lia|].
  apply Forall_forall. intros a' Ha' Heq. apply Ha.
  rewrite <- Heq. apply list_elem_of_fmap. by exists a'.
Qed.

(** When no two filtered events share both user and ts, the users table has
    exactly one row for every user of the filtered events. *)
Theorem users_one_row_without_ties (events : list Log.t) :
  NoDup ((λ e, (Log.userId e, Log.ts e)) <$> nextsong events) →
  one_row_per_user (nextsong events) (users_table (nextsong events)).
Proof.
  generalize (nextsong events). intros df Hnd u Hu.
  apply list_elem_of_fmap in Hu as (e & Hu & He).
  destruct (max_is_Some (Log.ts <$> filter (λ e, Log.userId e = Some u) df)
              (Log.ts e)) as [m Hm].
  { apply list_elem_of_fmap. exists e. split; [done|].
    by apply list_elem_of_filter. }
  unfold users_table. rewrite (rows_of_user_join df df u m) by done.
  rewrite (list_filter_iff _
             (λ e, (λ e, (Log.userId e, Log.ts e)) e = (Some u, m)))
    by (intros x; split; [by intros [-> ->] | by intros [= -> ->]]).
  pose proof (length_filter_NoDup_key
                (λ e, (Log.userId e, Log.ts e)) (Some u, m) df Hnd) as Hle.
  apply max_spec in Hm as [Hin _].
  apply list_elem_of_fmap in Hin as (e1 & -> & He1).
  apply list_elem_of_filter in He1 as [Hu1 He1].
  assert (e1 ∈ filter (λ e, (Log.userId e, Log.ts e) = (Some u, Log.ts e1)) df)
    as Hne.
  { apply list_elem_of_filter. split; [by rewrite Hu1 | done]. }
  destruct (filter _ df) as [|? [|? ?]];
    [by apply elem_of_nil in Hne | done | simpl in Hle; lia].
Qed.


(** A row of the fact table takes its event columns from a filtered event,
    and its song_id and artist_id either from a song record whose title and
    artist name are the event's song and artist, or, when the event matches
    no record, from nowhere: both are null. *)
Theorem fact_keys_come_from_a_match (df : list Log.t)
    (song_df : list (Song.t double)) (row : Fact.t) :
  row ∈ songplays_table (with_ts_ms df) song_df →
  ∃ e, e ∈ df ∧
    Fact.user_id row = Log.userId e ∧ Fact.level row = Log.level e ∧
    Fact.session_id row = Log.sessionId e ∧
    Fact.location row = Log.location e ∧
    Fact.user_agent row = Log.userAgent e ∧
    ((∃ s, s ∈ song_df ∧ matches e s ∧
           Fact.song_id row = Song.song_id s ∧
           Fact.artist_id row = Song.artist_id s) ∨
     (Forall (λ s, ¬ matches e s) song_df ∧
      Fact.song_id row = None ∧ Fact.artist_id row = None)).
Proof.
  intros (e & s & id & He & Hs & ->)%elem_of_songplays.
  exists e. repeat split; try done.
  destruct s as [s|]; [left | right].
  - destruct Hs. by exists s.
  - done.
Qed.

Lemma left_join_matched {A B} (mask : A → B → option bool) l r a b :
  a ∈ l → b ∈ r → Sql.holds (mask a b) →
  (a, Some b) ∈ Sql.left_join mask l r.
Proof.
  intros Ha Hb Hm. unfold Sql.left_join.
  apply list_elem_of_bind. exists a. split; [|done].
  assert (b ∈ filter (λ b, Sql.holds (mask a b)) r) as Hf
    by by apply list_elem_of_filter.
  destruct (filter _ r) as [|b' ms]; [by apply elem_of_nil in Hf|].
  apply list_elem_of_fmap. by exists b.
Qed.

(** A filtered event that matches a song record has a fact row carrying
    that record's song_id and artist_id, one row for each record it
    matches. *)
Theorem matched_play_resolved (df : list Log.t)
    (song_df : list (Song.t double)) (e : Log.t) (s : Song.t double) :
  e ∈ df → s ∈ song_df → matches e s →
  ∃ id,
    Fact.mk id (Some (from_unixtime (Py.int_truediv (Log.ts e) 1000))) (Log.userId e)
      (Log.level e) (Song.song_id s) (Song.artist_id s) (Log.sessionId e)
      (Log.location e) (Log.userAgent e)
      (year (from_unixtime (Py.int_truediv (Log.ts e) 1000)))
      (month (from_unixtime (Py.int_truediv (Log.ts e) 1000)))
    ∈ songplays_table (with_ts_ms df) song_df.
Proof.
  intros He Hs Hm.
  set (r := (e, get_timestamp (Log.ts e))).
  assert ((r, Some s, datetime_of r.2) ∈ dated_plays (with_ts_ms df) song_df)
    as Hj.
  { apply list_elem_of_fmap. exists (r, Some s). split; [done|].
    apply left_join_matched; [|done|by apply holds_song_match].
    apply list_elem_of_fmap. by exists e. }
  rewrite <- (partitions_concat _ (dated_plays _ _)), <- numbered_fst in Hj.
  apply list_elem_of_fmap in Hj as ([j id] & Hj & Hin). simpl in Hj. subst j.
  exists id. unfold songplays_table.
  apply list_elem_of_fmap. eexists. split; [|exact Hin].
  simpl. by rewrite datetime_of_get_timestamp.
Qed.

(** The partition columns of a fact row are read from that row's own
    start_time, which is never null; so are the calendar columns of a row
    of the time table. *)
Theorem calendar_columns_follow_start_time (df : list Log.t)
    (song_df : list (Song.t double)) :
  Forall (λ row, is_Some (Fact.start_time row) ∧
                 Fact.year row = Fact.start_time row ≫= year ∧
                 Fact.month row = Fact.start_time row ≫= month)
    (songplays_table (with_ts_ms df) song_df) ∧
  Forall (λ row, is_Some (TimeDim.start_time row) ∧
                 TimeDim.hour row = TimeDim.start_time row ≫= hour ∧
                 TimeDim.day row = TimeDim.start_time row ≫= dayofmonth ∧
                 TimeDim.week row = TimeDim.start_time row ≫= weekofyear ∧
                 TimeDim.month row = TimeDim.start_time row ≫= month ∧
                 TimeDim.year row = TimeDim.start_time row ≫= year ∧
                 TimeDim.weekday row = TimeDim.start_time row ≫= dayofweek)
    (time_table (with_ts_ms df)).
Proof.
  split; apply Forall_forall; intros row Hrow.
  - apply elem_of_songplays in Hrow as (e & s & id & _ & _ & ->).
    simpl. by split; [eexists|].
  - apply elem_of_time_table in Hrow as (e & _ & ->).
    simpl. by split; [eexists|].
Qed.


Lemma songplays_table_nil (song_df : list (Song.t double)) :
  songplays_table [] song_df = [].
Proof.
  apply (fmap_nil_inv Fact.payload). by rewrite songplays_payload.
Qed.

(** A log without a single "NextSong" event still overwrites the three
    destinations of the log stage, each with an empty table. *)
Theorem no_plays_empty_tables (log_df : list Log.t)
    (song_df : list (Song.t double)) (out : string)
    (st : gmap string Parquet) :
  Forall (λ e, Log.page e ≠ Some "NextSong") log_df →
  process_log_data log_df song_df out st =
  <[out +:+ "fact_songplays/" :=
      {| partition_cols := ["year"; "month"]; rows := SongplaysT [] |}]>
    (<[out +:+ "dim_time/" := {| partition_cols := []; rows := TimeT [] |}]>
       (<[out +:+ "dim_users/" :=
            {| partition_cols := []; rows := UsersT [] |}]> st)).
Proof.
  intros Hno.
  assert (nextsong log_df = []) as Hnil.
  { apply filter_none. eapply Forall_impl; [exact Hno|].
    intros e He. by rewrite holds_page. }
  unfold process_log_data. rewrite Hnil.
  change (with_ts_ms []) with (@nil (Log.t * Sql.value)).
  by rewrite songplays_table_nil.
Qed.

(** A song record whose five artist columns are those of a record already
    read adds no row to the artists table: an artist has one row however
    many songs. *)
Theorem same_artist_one_row (df : list (Song.t double))
    (r s : Song.t double) :
  s ∈ df →
  Song.artist_id r = Song.artist_id s →
  Song.artist_name r = Song.artist_name s →
  Song.artist_location r = Song.artist_location s →
  Song.artist_latitude r = Song.artist_latitude s →
  Song.artist_longitude r = Song.artist_longitude s →
  artists_table (r :: df) = artists_table df.
Proof.
  intros Hs H1 H2 H3 H4 H5. unfold artists_table, Sql.dropDuplicates.
  f_equal. rewrite fmap_cons. simpl.
  destruct (decide_rel elem_of _ _) as [_|Hn]; [done|].
  destruct Hn. apply list_elem_of_fmap. exists s.
  by rewrite H1, H2, H3, H4, H5.
Qed.

(** For an instant less than 2^44 seconds from the epoch, the seconds
    [get_timestamp] hands on are the floor of ts / 1000 from the epoch on;
    before the epoch an instant with a sub-second part lands one second
    above the floor, toward the epoch. *)
Theorem get_timestamp_against_floor (x : Z) :
  exact_ms x →
  Sql.cast_long (get_timestamp x) =
  Some (if decide (0 ≤ x ∨ x `mod` 1000 = 0) then x `div` 1000
        else x `div` 1000 + 1).
Proof.
  intros Hx. unfold get_timestamp.
  rewrite (int_truediv_exact x Hx), cast_long_str. f_equal.
  pose proof (Z.quot_rem' x 1000) as Hq.
  pose proof (Z.rem_bound_abs x 1000 ltac:(lia)) as Hb.
  pose proof (Z.rem_sign_mul x 1000 ltac:(lia)) as Hsg.
  case_decide; Z.div_mod_to_equations; nia.
Qed.

End table_facts.

(** ** The further properties on the sample data *)


(** The row of the upgrade belongs to u1. *)
Lemma users_rows_have_a_user_witness :
  let row :=
    UserDim.mk (Some "u1") (Some "Lily") (Some "Koch") (Some "F") (Some "paid")
  in
  row ∈ users_table (nextsong Sample.upgrade) ∧
  ∃ u e, e ∈ nextsong Sample.upgrade ∧ Log.userId e = Some u ∧
         UserDim.user_id row = Some u.
Proof.
  intros row.
  assert (row ∈ users_table (nextsong Sample.upgrade)) as Hrow.
  { vm_compute. left. }
  split; [exact Hrow|].
  exact (users_rows_have_a_user (nextsong Sample.upgrade) row Hrow).
Defined.

(** The five plays have no two events of one user at one instant. *)
Lemma users_one_row_without_ties_witness :
  NoDup ((λ e, (Log.userId e, Log.ts e)) <$> nextsong Sample.five_plays) ∧
  one_row_per_user (nextsong Sample.five_plays)
    (users_table (nextsong Sample.five_plays)).
Proof.
  assert (NoDup ((λ e, (Log.userId e, Log.ts e))
                   <$> nextsong Sample.five_plays)) as Hnd.
  { apply (bool_decide_unpack _). vm_compute. exact I. }
  split; [exact Hnd|].
  exact (users_one_row_without_ties Sample.five_plays Hnd).
Defined.

(** The first of the five plays and the record it matches. *)
Lemma fact_keys_come_from_a_match_witness :
  let row :=
    Fact.mk 0 (Some "1970-01-01 00:00:00") (Some "u1") (Some "free")
      (Some "SOZCTXZ12AB0182364") (Some "AR5KOSW1187FB35FF4") (Some 583)
      (Some "Lansing-East Lansing, MI") (Some "Mozilla/5.0") (Some 1970)
      (Some 1) in
  row ∈ songplays_table (engine := Utc.engine 2)
          (with_ts_ms (nextsong Sample.five_plays)) Sample.catalogue ∧
  ∃ e, e ∈ nextsong Sample.five_plays ∧
    Fact.user_id row = Log.userId e ∧ Fact.level row = Log.level e ∧
    Fact.session_id row = Log.sessionId e ∧
    Fact.location row = Log.location e ∧
    Fact.user_agent row = Log.userAgent e ∧
    ((∃ s, s ∈ Sample.catalogue ∧ matches e s ∧
           Fact.song_id row = Song.song_id s ∧
           Fact.artist_id row = Song.artist_id s) ∨
     (Forall (λ s, ¬ matches e s) Sample.catalogue ∧
      Fact.song_id row = None ∧ Fact.artist_id row = None)).
Proof.
  intros row.
  assert (row ∈ songplays_table (engine := Utc.engine 2)
                  (with_ts_ms (nextsong Sample.five_plays)) Sample.catalogue)
    as Hrow.
  { vm_compute. left. }
  split; [exact Hrow|].
  exact (fact_keys_come_from_a_match (engine := Utc.engine 2)
           (nextsong Sample.five_plays) Sample.catalogue row Hrow).
Defined.

(** The play of "Setanta matins" by "Elena" resolves to that record. *)
Lemma matched_play_resolved_witness :
  Sample.u1_free ∈ nextsong Sample.five_plays ∧
  Sample.setanta ∈ Sample.catalogue ∧
  matches Sample.u1_free Sample.setanta ∧
  ∃ id,
    Fact.mk id (Some "1970-01-01 00:00:00") (Some "u1") (Some "free")
      (Some "SOZCTXZ12AB0182364") (Some "AR5KOSW1187FB35FF4") (Some 583)
      (Some "Lansing-East Lansing, MI") (Some "Mozilla/5.0") (Some 1970)
      (Some 1)
    ∈ songplays_table (engine := Utc.engine 2)
        (with_ts_ms (nextsong Sample.five_plays)) Sample.catalogue.
Proof.
  assert (Sample.u1_free ∈ nextsong Sample.five_plays) as He.
  { vm_compute. left. }
  assert (Sample.setanta ∈ Sample.catalogue) as Hs by left.
  assert (matches Sample.u1_free Sample.setanta) as Hm.
  { by exists "Setanta matins", "Elena". }
  split; [exact He|]. split; [exact Hs|]. split; [exact Hm|].
  exact (matched_play_resolved (engine := Utc.engine 2)
           (nextsong Sample.five_plays) Sample.catalogue Sample.u1_free
           Sample.setanta He Hs Hm).
Defined.


(** A log of a login and a logout empties the three destinations. *)
Lemma no_plays_empty_tables_witness :
  let log_df := [Sample.visit "Login" "u1" 150; Sample.visit "Logout" "u1" 900]
  in
  Forall (λ e, Log.page e ≠ Some "NextSong") log_df ∧
  process_log_data (engine := Utc.engine 2) log_df Sample.catalogue
    output_data ∅ =
  <[output_data +:+ "fact_songplays/" :=
      {| partition_cols := ["year"; "month"]; rows := SongplaysT [] |}]>
    (<[output_data +:+ "dim_time/" :=
         {| partition_cols := []; rows := TimeT [] |}]>
       (<[output_data +:+ "dim_users/" :=
            {| partition_cols := []; rows := UsersT [] |}]> ∅)).
Proof.
  intros log_df.
  assert (Forall (λ e, Log.page e ≠ Some "NextSong") log_df) as Hno.
  { repeat constructor; discriminate. }
  split; [exact Hno|].
  exact (no_plays_empty_tables (engine := Utc.engine 2) log_df
           Sample.catalogue output_data ∅ Hno).
Defined.

(** The reissue is by the artist of the first release: one artist row. *)
Lemma same_artist_one_row_witness :
  Sample.setanta ∈ [Sample.setanta] ∧
  artists_table [Sample.setanta_reissue; Sample.setanta] =
  artists_table [Sample.setanta].
Proof.
  assert (Sample.setanta ∈ [Sample.setanta]) as Hs by left.
  split; [exact Hs|].
  exact (same_artist_one_row [Sample.setanta] Sample.setanta_reissue
           Sample.setanta Hs eq_refl eq_refl eq_refl eq_refl eq_refl).
Defined.

(** The last millisecond before the epoch is put in second 0. *)
Example get_timestamp_before_epoch :
  get_timestamp (-1) = Sql.StringV "0" ∧
  get_timestamp (-1000) = Sql.StringV "-1" ∧
  get_timestamp (-1001) = Sql.StringV "-1".
Proof. repeat split. Qed.

(** The sample instant is 1542242205 s and 796 ms. *)
Lemma get_timestamp_truncates_witness :
  exact_ms 1542242205796 ∧
  get_timestamp 1542242205796 = Sql.StringV (Py.str (1542242205796 ÷ 1000)) ∧
  Sql.cast_long (get_timestamp 1542242205796) = Some (1542242205796 ÷ 1000) ∧
  ∃ r, 1542242205796 = 1000 * (1542242205796 ÷ 1000) + r ∧
       Z.abs r < 1000 ∧ 0 ≤ r * 1542242205796.
Proof.
  assert (exact_ms 1542242205796) as Hx.
  { apply (bool_decide_unpack _). vm_compute. exact I. }
  split; [exact Hx|].
  exact (get_timestamp_truncates 1542242205796 Hx).
Defined.


(** 1 ms before the epoch: the floor is second -1, the job says second 0. *)
Lemma get_timestamp_against_floor_witness :
  exact_ms (-1) ∧
  Sql.cast_long (get_timestamp (-1)) =
  Some (if decide (0 ≤ -1 ∨ (-1) `mod` 1000 = 0) then (-1) `div` 1000
        else (-1) `div` 1000 + 1).
Proof.
  assert (exact_ms (-1)) as Hx.
  { apply (bool_decide_unpack _). vm_compute. exact I. }
  split; [exact Hx|].
  exact (get_timestamp_against_floor (-1) Hx).
Defined.
